(** * VoiceCalc: the voice-driven accumulator and its live audio session

    A shallow embedding of [App.tsx] (the operation callback and the
    history it keeps), [components/Visualizer.tsx] (the running-total fold
    recomputed for the chart), [components/StatsPanel.tsx] (the figures
    computed from the history), [components/HistoryTape.tsx] (the rows of
    the tape), [types.ts] and [hooks/useLiveMath.ts] (the session hook:
    connect, the session callbacks, disconnect).

    Conventions.
    - A TypeScript [number] is an IEEE 754 binary64 value: Rocq's primitive
      [float], whose [+ - * /] and [=?] are the JavaScript operators
      (in particular [nan =? nan] is false and [-0 =? 0] is true).
    - In the hook's state, audio clock readings and buffer durations are
      exact rationals [Q], which is enough for what is proved of their
      order; the arithmetic of the playback schedule itself, on binary64
      numbers as the browser does it, is in [Playback].
    - JavaScript objects with an identity (audio contexts, source nodes, the
      session promise) are natural numbers drawn from an allocation counter.
    - React state setters take effect at once; an updater function runs
      once. *)

From Stdlib Require Import Bool List String Arith ZArith NArith Lia.
From Stdlib Require Import QArith Qminmax Lqa.
From Stdlib Require Import Floats DecimalString.
From Stdlib Require Import Permutation.
Import ListNotations.

Local Open Scope string_scope.
Local Open Scope list_scope.

(** ** types.ts *)

Module Types.

(** [enum OperationType]: a string enum, each member's value is its key. *)
Inductive OperationType : Type :=
| ADD | SUBTRACT | MULTIPLY | DIVIDE | RESET | UNKNOWN.

Definition OperationType_eqb (a b : OperationType) : bool :=
  match a, b with
  | ADD, ADD | SUBTRACT, SUBTRACT | MULTIPLY, MULTIPLY
  | DIVIDE, DIVIDE | RESET, RESET | UNKNOWN, UNKNOWN => true
  | _, _ => false
  end.

(** The value a variable typed [OperationType] holds at run time.  The hook
    computes it as [OperationType[opKey] || OperationType.UNKNOWN]; the enum
    is compiled to an ordinary object, so besides the six members the lookup
    can return a property the object inherits from [Object.prototype]
    (a function or an object, never equal to a member). *)
Inductive OpValue : Type :=
| Member (o : OperationType)
| Inherited (key : string).

(** [op === OperationType.X] *)
Definition strict_eq (op : OpValue) (o : OperationType) : bool :=
  match op with
  | Member o' => OperationType_eqb o' o
  | Inherited _ => false
  end.

(** The own properties of the compiled enum object, in declaration order. *)
Definition OperationType_members : list (string * OperationType) :=
  [ ("ADD", ADD); ("SUBTRACT", SUBTRACT); ("MULTIPLY", MULTIPLY);
    ("DIVIDE", DIVIDE); ("RESET", RESET); ("UNKNOWN", UNKNOWN) ].

(** The property names every ordinary object inherits from
    [Object.prototype]; each of them holds a truthy value. *)
Definition Object_prototype_keys : list string :=
  [ "constructor"; "hasOwnProperty"; "isPrototypeOf"; "propertyIsEnumerable";
    "toLocaleString"; "toString"; "valueOf"; "__proto__";
    "__defineGetter__"; "__defineSetter__";
    "__lookupGetter__"; "__lookupSetter__" ].

(** [OperationType[key]]: own properties first, then the prototype;
    [None] is [undefined]. *)
Definition OperationType_get (key : string) : option OpValue :=
  match find (fun kv => String.eqb (fst kv) key) OperationType_members with
  | Some (_, o) => Some (Member o)
  | None =>
      if existsb (String.eqb key) Object_prototype_keys
      then Some (Inherited key)
      else None
  end.

End Types.

Import Types.

(** [interface HistoryItem] *)
Module HistoryItem.
Record t : Type := mk
  { id : string;
    value : float;
    operation : OpValue;
    timestamp : float }.
End HistoryItem.

(** ** App.tsx *)

Module App.

(** The React state of the component. *)
Record State : Type := mkState
  { currentTotal : float;
    history : list HistoryItem.t;
    lastTranscript : option string }.

(** [useState(0)], [useState([])], [useState("")]. *)
Definition initial : State :=
  {| currentTotal := 0%float; history := []; lastTranscript := Some "" |}.

(** What one call of the callback reads from its environment:
    [crypto.randomUUID()] and [Date.now()]. *)
Record Env : Type := mkEnv
  { randomUUID : string;
    Date_now : float }.

(** The [switch (op)] of [handleOperation]: the new total. *)
Definition newTotal (prevTotal : float) (op : OpValue) (value : float) : float :=
  match op with
  | Member ADD => (prevTotal + value)%float
  | Member SUBTRACT => (prevTotal - value)%float
  | Member MULTIPLY => (prevTotal * value)%float
  | Member DIVIDE =>
      if negb (value =? 0)%float then (prevTotal / value)%float else prevTotal
  | Member RESET => 0%float
  | Member UNKNOWN | Inherited _ => prevTotal
  end.

(** [handleOperation(op, value)]: the updater passed to [setCurrentTotal],
    with the [setHistory] call it makes. *)
Definition handleOperation (env : Env) (op : OpValue) (value : float)
  (s : State) : State :=
  let prevTotal := currentTotal s in
  let total := newTotal prevTotal op value in
  if strict_eq op RESET then
    {| currentTotal := 0%float;
       history := [];
       lastTranscript := lastTranscript s |}
  else
    {| currentTotal := total;
       history :=
         history s ++
           [ {| HistoryItem.id := randomUUID env;
                HistoryItem.operation := op;
                HistoryItem.value := value;
                HistoryItem.timestamp := Date_now env |} ];
       lastTranscript := lastTranscript s |}.

(** [handleTranscript(text)] *)
Definition handleTranscript (text : option string) (s : State) : State :=
  {| currentTotal := currentTotal s;
     history := history s;
     lastTranscript := text |}.

(** One recognised operation as the callback receives it. *)
Record Call : Type := mkCall
  { call_env : Env;
    call_op : OpValue;
    call_value : float }.

Definition apply_call (s : State) (c : Call) : State :=
  handleOperation (call_env c) (call_op c) (call_value c) s.

(** A sequence of operations applied through the callback. *)
Definition apply_calls (calls : list Call) (s : State) : State :=
  fold_left apply_call calls s.

End App.

(** ** components/Visualizer.tsx *)

Module Visualizer.

Record Point : Type := mkPoint
  { name : string;
    total : float }.

(** [`${n}`] for a non-negative integer. *)
Definition decimal (n : nat) : string :=
  NilZero.string_of_uint (Nat.to_uint n).

(** The body of the [forEach] callback: the running total after item [h]. *)
Definition step (runningTotal : float) (h : HistoryItem.t) : float :=
  let op := HistoryItem.operation h in
  let v := HistoryItem.value h in
  if strict_eq op RESET then 0%float
  else if strict_eq op ADD then (runningTotal + v)%float
  else if strict_eq op SUBTRACT then (runningTotal - v)%float
  else if strict_eq op MULTIPLY then (runningTotal * v)%float
  else if strict_eq op DIVIDE then
    (if negb (v =? 0)%float then (runningTotal / v)%float else runningTotal)
  else runningTotal.

(** [history.forEach((h, idx) => ...)] from index [idx] on, pushing one
    point per item. *)
Fixpoint forEach (idx : nat) (runningTotal : float)
  (history : list HistoryItem.t) : list Point :=
  match history with
  | [] => []
  | h :: rest =>
      let runningTotal' := step runningTotal h in
      {| name := decimal (idx + 1); total := runningTotal' |}
        :: forEach (S idx) runningTotal' rest
  end.

Definition start : Point := {| name := "Start"; total := 0%float |}.

(** The memoised [data]: the chart's points (computed also when the
    history is empty and nothing is rendered). *)
Definition data (history : list HistoryItem.t) : list Point :=
  start :: forEach 0 0%float history.

(** The total of the last point of [data]. *)
Definition last_total (history : list HistoryItem.t) : float :=
  total (last (data history) start).

End Visualizer.

(** ** hooks/useLiveMath.ts *)

Module LiveMath.

(** *** Messages of the live session *)

(** A JSON value typed [any], as the handler observes it: it only ever uses
    such a value as a property key ([OperationType[opKey]]) and through
    [Number(...)].  The JSON string ["ADD"] is
    [{| ToPropertyKey := "ADD"; Number := nan |}], the JSON number [50] is
    [{| ToPropertyKey := "50"; Number := 50 |}], an absent property
    ([undefined]) is [{| ToPropertyKey := "undefined"; Number := nan |}]. *)
Record any : Type := mkAny
  { ToPropertyKey : string;
    Number : float }.

Module Args.
Record t : Type := mk
  { operation : any;
    value : any }.
End Args.

(** [FunctionCall]: every field is optional in the SDK's declaration. *)
Module FunctionCall.
Record t : Type := mk
  { id : option string;
    args : option Args.t;
    name : option string }.
End FunctionCall.

Module Blob.
Record t : Type := mk { data : option string }.
End Blob.

Module Part.
Record t : Type := mk { inlineData : option Blob.t }.
End Part.

Module Content.
Record t : Type := mk { parts : option (list Part.t) }.
End Content.

Module Transcription.
Record t : Type := mk { text : option string }.
End Transcription.

Module LiveServerContent.
Record t : Type := mk
  { inputTranscription : option Transcription.t;
    modelTurn : option Content.t }.
End LiveServerContent.

Module LiveServerToolCall.
Record t : Type := mk { functionCalls : option (list FunctionCall.t) }.
End LiveServerToolCall.

Module LiveServerMessage.
Record t : Type := mk
  { toolCall : option LiveServerToolCall.t;
    serverContent : option LiveServerContent.t }.
End LiveServerMessage.

(** *** Web Audio *)

(** An [AudioBuffer]: [duration] is [length / sampleRate]. *)
Record AudioBuffer : Type := mkAudioBuffer
  { length : N;
    sampleRate : positive }.

Definition duration (b : AudioBuffer) : Q := Z.of_N (length b) # sampleRate b.

(** *** What the hook does to the outside

    The calls the hook makes on its callbacks, on the session and on the
    browser, in the order it makes them. *)

Inductive Effect : Type :=
(* onOperation(op, value) *)
| CallOnOperation (op : OpValue) (value : float)
(* onTranscriptUpdate(text) *)
| CallOnTranscriptUpdate (text : option string)
(* session.sendRealtimeInput({ media: createBlob(inputData) }) *)
| SendRealtimeInput (session : nat) (inputData : list float)
(* session.sendToolResponse({ functionResponses:
     { id, name, response: { result } } }) *)
| SendToolResponse (session : nat) (id name : option string) (result : string)
(* session.close() *)
| SessionClose (session : nat)
(* new AudioContext({ sampleRate }) *)
| NewAudioContext (ctx : nat) (rate : Z)
(* ctx.close() *)
| AudioContextClose (ctx : nat)
(* navigator.mediaDevices.getUserMedia(...) *)
| GetUserMedia
(* ai.live.connect(...) *)
| LiveConnect (session : nat)
(* the script processor attached to the microphone stream *)
| CaptureStart (ctx session : nat)
(* source.start(when), for a new buffer source of [ctx] playing [buffer] *)
| SourceStart (node ctx : nat) (buffer : AudioBuffer) (when : Q)
(* source.stop() *)
| SourceStop (node : nat).

(** *** The hook's state: React state and refs *)

Record HookState : Type := mkHookState
  { isConnected : bool;
    isConnecting : bool;
    error : option string;
    inputAudioContextRef : option nat;
    outputAudioContextRef : option nat;
    nextStartTimeRef : Q;
    (* a JavaScript [Set], insertion-ordered and without repetition, of the
       source nodes started and not yet ended: a node is added right after
       its [start] call, so [stop] on a member cannot throw *)
    sourcesRef : list nat;
    sessionPromiseRef : option nat;
    activeRef : bool }.

Definition initial_state : HookState :=
  {| isConnected := false;
     isConnecting := false;
     error := None;
     inputAudioContextRef := None;
     outputAudioContextRef := None;
     nextStartTimeRef := 0%Q;
     sourcesRef := [];
     sessionPromiseRef := None;
     activeRef := false |}.

Definition setIsConnected (b : bool) (h : HookState) : HookState :=
  {| isConnected := b; isConnecting := isConnecting h; error := error h;
     inputAudioContextRef := inputAudioContextRef h;
     outputAudioContextRef := outputAudioContextRef h;
     nextStartTimeRef := nextStartTimeRef h; sourcesRef := sourcesRef h;
     sessionPromiseRef := sessionPromiseRef h; activeRef := activeRef h |}.

Definition setIsConnecting (b : bool) (h : HookState) : HookState :=
  {| isConnected := isConnected h; isConnecting := b; error := error h;
     inputAudioContextRef := inputAudioContextRef h;
     outputAudioContextRef := outputAudioContextRef h;
     nextStartTimeRef := nextStartTimeRef h; sourcesRef := sourcesRef h;
     sessionPromiseRef := sessionPromiseRef h; activeRef := activeRef h |}.

Definition setError (e : option string) (h : HookState) : HookState :=
  {| isConnected := isConnected h; isConnecting := isConnecting h; error := e;
     inputAudioContextRef := inputAudioContextRef h;
     outputAudioContextRef := outputAudioContextRef h;
     nextStartTimeRef := nextStartTimeRef h; sourcesRef := sourcesRef h;
     sessionPromiseRef := sessionPromiseRef h; activeRef := activeRef h |}.

Definition set_inputAudioContextRef (c : option nat) (h : HookState) : HookState :=
  {| isConnected := isConnected h; isConnecting := isConnecting h;
     error := error h;
     inputAudioContextRef := c;
     outputAudioContextRef := outputAudioContextRef h;
     nextStartTimeRef := nextStartTimeRef h; sourcesRef := sourcesRef h;
     sessionPromiseRef := sessionPromiseRef h; activeRef := activeRef h |}.

Definition set_outputAudioContextRef (c : option nat) (h : HookState) : HookState :=
  {| isConnected := isConnected h; isConnecting := isConnecting h;
     error := error h;
     inputAudioContextRef := inputAudioContextRef h;
     outputAudioContextRef := c;
     nextStartTimeRef := nextStartTimeRef h; sourcesRef := sourcesRef h;
     sessionPromiseRef := sessionPromiseRef h; activeRef := activeRef h |}.

Definition set_nextStartTimeRef (t : Q) (h : HookState) : HookState :=
  {| isConnected := isConnected h; isConnecting := isConnecting h;
     error := error h;
     inputAudioContextRef := inputAudioContextRef h;
     outputAudioContextRef := outputAudioContextRef h;
     nextStartTimeRef := t; sourcesRef := sourcesRef h;
     sessionPromiseRef := sessionPromiseRef h; activeRef := activeRef h |}.

Definition set_sourcesRef (l : list nat) (h : HookState) : HookState :=
  {| isConnected := isConnected h; isConnecting := isConnecting h;
     error := error h;
     inputAudioContextRef := inputAudioContextRef h;
     outputAudioContextRef := outputAudioContextRef h;
     nextStartTimeRef := nextStartTimeRef h; sourcesRef := l;
     sessionPromiseRef := sessionPromiseRef h; activeRef := activeRef h |}.

Definition set_sessionPromiseRef (p : option nat) (h : HookState) : HookState :=
  {| isConnected := isConnected h; isConnecting := isConnecting h;
     error := error h;
     inputAudioContextRef := inputAudioContextRef h;
     outputAudioContextRef := outputAudioContextRef h;
     nextStartTimeRef := nextStartTimeRef h; sourcesRef := sourcesRef h;
     sessionPromiseRef := p; activeRef := activeRef h |}.

Definition set_activeRef (b : bool) (h : HookState) : HookState :=
  {| isConnected := isConnected h; isConnecting := isConnecting h;
     error := error h;
     inputAudioContextRef := inputAudioContextRef h;
     outputAudioContextRef := outputAudioContextRef h;
     nextStartTimeRef := nextStartTimeRef h; sourcesRef := sourcesRef h;
     sessionPromiseRef := sessionPromiseRef h; activeRef := b |}.

(** [Set.prototype.add] and [Set.prototype.delete] *)
Definition Set_add (x : nat) (s : list nat) : list nat :=
  if existsb (Nat.eqb x) s then s else s ++ [x].

Definition Set_delete (x : nat) (s : list nat) : list nat :=
  filter (fun y => negb (Nat.eqb x y)) s.

(** *** One turn of the event loop

    A handler runs on the hook's state, allocates objects, performs effects
    at once ([emit]) or from a [sessionPromise.then(...)] callback
    ([defer]: a microtask, run in registration order when the handler
    awaits or ends; the session promise is fulfilled by the time one of
    the session's callbacks runs), and may throw. *)

Record Turn : Type := mkTurn
  { state : HookState;
    heap : nat;
    effects : list Effect;
    microtasks : list Effect }.

Definition Act (A : Type) : Type := Turn -> option A * Turn.

Definition ret {A : Type} (a : A) : Act A := fun t => (Some a, t).

Definition bind {A B : Type} (m : Act A) (k : A -> Act B) : Act B :=
  fun t =>
    match m t with
    | (Some a, t') => k a t'
    | (None, t') => (None, t')
    end.

(** A thrown exception: [None], with everything done so far kept. *)
Definition throw {A : Type} : Act A := fun t => (None, t).

Declare Scope act_scope.
Delimit Scope act_scope with act.
Notation "x <- m ;; k" := (bind m (fun x => k))
  (at level 61, m at next level, right associativity) : act_scope.
Notation "m ;; k" := (bind m (fun _ => k))
  (at level 61, right associativity) : act_scope.
Local Open Scope act_scope.

Definition gets {A : Type} (f : HookState -> A) : Act A :=
  fun t => (Some (f (state t)), t).

Definition modify (f : HookState -> HookState) : Act unit :=
  fun t =>
    (Some tt,
     {| state := f (state t); heap := heap t;
        effects := effects t; microtasks := microtasks t |}).

Definition emit (e : Effect) : Act unit :=
  fun t =>
    (Some tt,
     {| state := state t; heap := heap t;
        effects := effects t ++ [e]; microtasks := microtasks t |}).

Definition defer (e : Effect) : Act unit :=
  fun t =>
    (Some tt,
     {| state := state t; heap := heap t;
        effects := effects t; microtasks := microtasks t ++ [e] |}).

(** A new object: its identity. *)
Definition alloc : Act nat :=
  fun t =>
    (Some (heap t),
     {| state := state t; heap := S (heap t);
        effects := effects t; microtasks := microtasks t |}).

(** The microtask checkpoint: the pending [then] callbacks run in order. *)
Definition checkpoint (t : Turn) : Turn :=
  {| state := state t; heap := heap t;
     effects := effects t ++ microtasks t; microtasks := [] |}.

(** [await p]: the microtasks run, then the handler goes on with [p]'s value
    or [p]'s rejection is thrown.  No other handler runs in between (see
    [decodeAudioData] below). *)
Definition await {A : Type} (p : option A) : Act A :=
  fun t =>
    match p with
    | Some a => (Some a, checkpoint t)
    | None => (None, checkpoint t)
    end.

(** [try { body } catch { handler }] *)
Definition try_catch (body handler : Act unit) : Act unit :=
  fun t =>
    match body t with
    | (Some _, t') => (Some tt, t')
    | (None, t') => handler t'
    end.

(** [for (const x of l) body(x)] *)
Fixpoint for_of {A : Type} (l : list A) (body : A -> Act unit) : Act unit :=
  match l with
  | [] => ret tt
  | x :: rest => body x ;; for_of rest body
  end.

(** Reading a property of, or iterating, a value that must not be
    [undefined]: a TypeError otherwise. *)
Definition defined {A : Type} (v : option A) : Act A :=
  match v with
  | Some a => ret a
  | None => throw
  end.

(** *** connect *)

(** Where the [try] block of [connect] fails, if it does. *)
Inductive SetupStage : Type :=
| AtGoogleGenAI | AtInputContext | AtOutputContext | AtResume | AtGetUserMedia.

Definition SetupStage_eqb (a b : SetupStage) : bool :=
  match a, b with
  | AtGoogleGenAI, AtGoogleGenAI | AtInputContext, AtInputContext
  | AtOutputContext, AtOutputContext | AtResume, AtResume
  | AtGetUserMedia, AtGetUserMedia => true
  | _, _ => false
  end.

(** What the browser and the SDK answer to one call of [connect]:
    everything succeeds, or the named step throws [err] with [err.message]
    (the empty string when there is none). *)
Inductive Setup : Type :=
| Succeeds
| Fails (stage : SetupStage) (message : string).

Definition passes (env : Setup) (stage : SetupStage) : Act unit :=
  match env with
  | Succeeds => ret tt
  | Fails s _ => if SetupStage_eqb s stage then throw else ret tt
  end.

Definition err_message (env : Setup) : string :=
  match env with
  | Succeeds => ""
  | Fails _ m => m
  end.

(** The variables of one [connect] call that the session callbacks close
    over. *)
Record Closure : Type := mkClosure
  { inputCtx : nat;
    sessionPromise : nat }.

(** [connect()].  Its [await]s are taken to complete without another
    handler running in between. *)
Definition connect (env : Setup) : Act unit :=
  active <- gets activeRef ;;
  if active then ret tt
  else
    try_catch
      (modify (setIsConnecting true) ;;
       modify (setError None) ;;
       passes env AtGoogleGenAI ;;
       passes env AtInputContext ;;
       inputCtx <- alloc ;;
       emit (NewAudioContext inputCtx 16000) ;;
       passes env AtOutputContext ;;
       outputCtx <- alloc ;;
       emit (NewAudioContext outputCtx 24000) ;;
       passes env AtResume ;;
       modify (set_inputAudioContextRef (Some inputCtx)) ;;
       modify (set_outputAudioContextRef (Some outputCtx)) ;;
       emit GetUserMedia ;;
       passes env AtGetUserMedia ;;
       sessionPromise <- alloc ;;
       emit (LiveConnect sessionPromise) ;;
       modify (set_sessionPromiseRef (Some sessionPromise)))
      (modify (setError
                 (Some (if String.eqb (err_message env) ""
                        then "Failed to connect to microphone or API"
                        else err_message env))) ;;
       modify (setIsConnecting false)).

(** *** The session callbacks *)

(** [onopen] *)
Definition onopen (c : Closure) : Act unit :=
  modify (setIsConnected true) ;;
  modify (setIsConnecting false) ;;
  modify (set_activeRef true) ;;
  emit (CaptureStart (inputCtx c) (sessionPromise c)).

(** [scriptProcessor.onaudioprocess]; the blob sent is
    [createBlob(inputData)]. *)
Definition onaudioprocess (c : Closure) (inputData : list float) : Act unit :=
  active <- gets activeRef ;;
  if negb active then ret tt
  else defer (SendRealtimeInput (sessionPromise c) inputData).

(** [fc.name === 'performMathOperation'] *)
Definition is_performMathOperation (fc : FunctionCall.t) : bool :=
  match FunctionCall.name fc with
  | Some n => String.eqb n "performMathOperation"
  | None => false
  end.

(** [OperationType[opKey] || OperationType.UNKNOWN] *)
Definition opType (opKey : string) : OpValue :=
  match OperationType_get opKey with
  | Some v => v
  | None => Member UNKNOWN
  end.

(** The body of the loop over [message.toolCall.functionCalls]. *)
Definition handleFunctionCall (c : Closure) (fc : FunctionCall.t) : Act unit :=
  if is_performMathOperation fc then
    args <- defined (FunctionCall.args fc) ;;
    let opKey := ToPropertyKey (Args.operation args) in
    emit (CallOnOperation (opType opKey) (Number (Args.value args))) ;;
    defer (SendToolResponse (sessionPromise c)
             (FunctionCall.id fc) (FunctionCall.name fc) "ok, state updated")
  else ret tt.

(** [message.serverContent?.inputTranscription] *)
Definition inputTranscription_of (m : LiveServerMessage.t)
  : option Transcription.t :=
  match LiveServerMessage.serverContent m with
  | Some sc => LiveServerContent.inputTranscription sc
  | None => None
  end.

(** [message.serverContent?.modelTurn?.parts[0]?.inlineData?.data]:
    [parts[0]] is read without [?.], so a turn without [parts] throws. *)
Definition base64Audio_of (m : LiveServerMessage.t) : Act (option string) :=
  match LiveServerMessage.serverContent m with
  | None => ret None
  | Some sc =>
      match LiveServerContent.modelTurn sc with
      | None => ret None
      | Some turn =>
          parts <- defined (Content.parts turn) ;;
          ret (match nth_error parts 0 with
               | None => None
               | Some part =>
                   match Part.inlineData part with
                   | None => None
                   | Some blob => Blob.data blob
                   end
               end)
      end
  end.

(** A string is truthy unless it is empty. *)
Definition truthy (s : option string) : option string :=
  match s with
  | Some "" => None
  | other => other
  end.

Section Handlers.

(** [decodeAudioData] and [base64ToUint8Array] come from
    [utils/audioUtils], which is not among the sources: the decoder is a
    parameter.  [decodeAudioData data] stands for
    [decodeAudioData(base64ToUint8Array(data), ctx, 24000, 1)]: the decoded
    buffer, or [None] when decoding throws.  Awaiting it lets only the
    microtasks run: decoding is not among the suspension points the
    specification lists (section 5). *)
Variable decodeAudioData : string -> option AudioBuffer.

(** [onmessage]; [currentTime] is what [ctx.currentTime] reads. *)
Definition onmessage (c : Closure) (currentTime : Q)
  (message : LiveServerMessage.t) : Act unit :=
  match LiveServerMessage.toolCall message with
  | Some toolCall =>
      functionCalls <- defined (LiveServerToolCall.functionCalls toolCall) ;;
      for_of functionCalls (handleFunctionCall c)
  | None => ret tt
  end ;;
  match inputTranscription_of message with
  | Some transcription =>
      emit (CallOnTranscriptUpdate (Transcription.text transcription))
  | None => ret tt
  end ;;
  base64Audio <- base64Audio_of message ;;
  outputCtx <- gets outputAudioContextRef ;;
  match truthy base64Audio, outputCtx with
  | Some data, Some ctx =>
      t_next <- gets nextStartTimeRef ;;
      modify (set_nextStartTimeRef (Qmax t_next currentTime)) ;;
      audioBuffer <- await (decodeAudioData data) ;;
      source <- alloc ;;
      start <- gets nextStartTimeRef ;;
      emit (SourceStart source ctx audioBuffer start) ;;
      modify (set_nextStartTimeRef (start + duration audioBuffer)%Q) ;;
      sources <- gets sourcesRef ;;
      modify (set_sourcesRef (Set_add source sources))
  | _, _ => ret tt
  end.

(** The ['ended'] listener of a source node. *)
Definition onended (source : nat) : Act unit :=
  sources <- gets sourcesRef ;;
  modify (set_sourcesRef (Set_delete source sources)).

(** [onclose] *)
Definition onclose : Act unit :=
  modify (setIsConnected false) ;;
  modify (set_activeRef false).

(** [onerror] *)
Definition onerror : Act unit :=
  modify (setError (Some "Connection error occurred.")) ;;
  modify (setIsConnected false) ;;
  modify (set_activeRef false).

(** [disconnect()].  [session.close()] is called from a [then] on the
    session promise: at the end of this turn, as here, once the promise is
    fulfilled, that is once the session has opened. *)
Definition disconnect : Act unit :=
  modify (set_activeRef false) ;;
  inputCtx <- gets inputAudioContextRef ;;
  match inputCtx with
  | Some ctx =>
      emit (AudioContextClose ctx) ;;
      modify (set_inputAudioContextRef None)
  | None => ret tt
  end ;;
  outputCtx <- gets outputAudioContextRef ;;
  match outputCtx with
  | Some ctx =>
      sources <- gets sourcesRef ;;
      for_of sources (fun s => emit (SourceStop s)) ;;
      modify (set_sourcesRef []) ;;
      emit (AudioContextClose ctx) ;;
      modify (set_outputAudioContextRef None)
  | None => ret tt
  end ;;
  session <- gets sessionPromiseRef ;;
  match session with
  | Some p =>
      defer (SessionClose p) ;;
      modify (set_sessionPromiseRef None)
  | None => ret tt
  end ;;
  modify (setIsConnected false) ;;
  modify (setIsConnecting false).

(** *** The event loop *)

Inductive Event : Type :=
| Connect (env : Setup)
| Disconnect
| OnOpen (c : Closure)
| OnAudioProcess (c : Closure) (inputData : list float)
| OnMessage (c : Closure) (currentTime : Q) (message : LiveServerMessage.t)
| OnEnded (source : nat)
| OnClose
| OnError.

Definition handler (e : Event) : Act unit :=
  match e with
  | Connect env => connect env
  | Disconnect => disconnect
  | OnOpen c => onopen c
  | OnAudioProcess c inputData => onaudioprocess c inputData
  | OnMessage c currentTime message => onmessage c currentTime message
  | OnEnded source => onended source
  | OnClose => onclose
  | OnError => onerror
  end.

(** What persists between two turns. *)
Record World : Type := mkWorld
  { hook : HookState;
    next_object : nat }.

Definition initial : World :=
  {| hook := initial_state; next_object := 0 |}.

Inductive Completion : Type := Returned | Threw.

Record Outcome : Type := mkOutcome
  { after : World;
    performed : list Effect;
    completion : Completion }.

(** One turn: the handler runs to its end or to its exception, then the
    microtasks it left run. *)
Definition step (e : Event) (w : World) : Outcome :=
  let '(r, t) :=
    handler e {| state := hook w; heap := next_object w;
                 effects := []; microtasks := [] |} in
  let t' := checkpoint t in
  {| after := {| hook := state t'; next_object := heap t' |};
     performed := effects t';
     completion := match r with Some _ => Returned | None => Threw end |}.

(** A sequence of turns: the final world and everything performed. *)
Fixpoint run (es : list Event) (w : World) : World * list Effect :=
  match es with
  | [] => (w, [])
  | e :: rest =>
      let o := step e w in
      let '(w', l) := run rest (after o) in
      (w', performed o ++ l)
  end.

End Handlers.

(** *** Reading a trace *)

(** The acknowledgements sent, in order. *)
Definition is_ToolResponse (e : Effect) : bool :=
  match e with
  | SendToolResponse _ _ _ _ => true
  | _ => false
  end.

Definition acknowledgements (l : list Effect) : list Effect :=
  filter is_ToolResponse l.

(** The acknowledgement the handler sends for [fc]. *)
Definition acknowledgement (c : Closure) (fc : FunctionCall.t) : Effect :=
  SendToolResponse (sessionPromise c)
    (FunctionCall.id fc) (FunctionCall.name fc) "ok, state updated".

(** The function calls a message carries. *)
Definition functionCalls_of (m : LiveServerMessage.t) : list FunctionCall.t :=
  match LiveServerMessage.toolCall m with
  | Some tc =>
      match LiveServerToolCall.functionCalls tc with
      | Some l => l
      | None => []
      end
  | None => []
  end.

(** The playback schedule: start time and duration of each source started,
    in scheduling order. *)
Fixpoint schedule (l : list Effect) : list (Q * Q) :=
  match l with
  | [] => []
  | SourceStart _ _ buffer when :: rest => (when, duration buffer) :: schedule rest
  | _ :: rest => schedule rest
  end.


(** No source starts before [t], nor before the source scheduled just
    before it has played for its whole duration. *)
Fixpoint back_to_back (t : Q) (s : list (Q * Q)) : Prop :=
  match s with
  | [] => True
  | (start, d) :: rest => (t <= start)%Q /\ back_to_back (start + d)%Q rest
  end.

(** The captured frames sent, in order. *)
Definition is_RealtimeInput (e : Effect) : bool :=
  match e with
  | SendRealtimeInput _ _ => true
  | _ => false
  end.

Definition frames_sent (l : list Effect) : list Effect :=
  filter is_RealtimeInput l.

(** What releases a resource: closing an audio context, stopping a source,
    closing the session. *)
Definition is_release (e : Effect) : bool :=
  match e with
  | AudioContextClose _ | SourceStop _ | SessionClose _ => true
  | _ => false
  end.

Definition releases (l : list Effect) : list Effect :=
  filter is_release l.

(** The callback invocations, in order. *)
Definition is_callback (e : Effect) : bool :=
  match e with
  | CallOnOperation _ _ | CallOnTranscriptUpdate _ => true
  | _ => false
  end.

Definition callbacks (l : list Effect) : list Effect :=
  filter is_callback l.

(** The invocations an event delivers, each with the session whose handler
    receives it. *)
Definition invocations_of (e : Event) : list (Closure * FunctionCall.t) :=
  match e with
  | OnMessage c _ m => map (pair c) (functionCalls_of m)
  | _ => []
  end.

Definition invocations (es : list Event) : list (Closure * FunctionCall.t) :=
  flat_map invocations_of es.

(** An invocation of the declared tool. *)
Definition declared_tool (i : Closure * FunctionCall.t) : bool :=
  is_performMathOperation (snd i).

(** An invocation of the declared tool carries an argument object. *)
Definition has_args (fc : FunctionCall.t) : bool :=
  negb (is_performMathOperation fc)
  || match FunctionCall.args fc with Some _ => true | None => false end.

(** The message without the function calls made under another name than
    the declared tool's. *)
Definition declared_only (m : LiveServerMessage.t) : LiveServerMessage.t :=
  {| LiveServerMessage.toolCall :=
       match LiveServerMessage.toolCall m with
       | Some tc =>
           Some {| LiveServerToolCall.functionCalls :=
                     match LiveServerToolCall.functionCalls tc with
                     | Some fcs => Some (filter is_performMathOperation fcs)
                     | None => None
                     end |}
       | None => None
       end;
     LiveServerMessage.serverContent := LiveServerMessage.serverContent m |}.

(** The operation names the tool declaration enumerates. *)
Definition declared_operations : list string :=
  [ "ADD"; "SUBTRACT"; "MULTIPLY"; "DIVIDE"; "RESET" ].

(** Every event but a call of [disconnect()]. *)
Definition not_disconnect (e : Event) : bool :=
  match e with
  | Disconnect => false
  | _ => true
  end.


(** *** The handlers in closed form

    What [onmessage] amounts to, part by part; the proofs below show the
    handler equal to it. *)

(** The loop over the function calls: whether it ran to its end, the
    callback invocations it made and the acknowledgements it left to send. *)
Fixpoint toolCall_loop (c : Closure) (fcs : list FunctionCall.t)
  : bool * list Effect * list Effect :=
  match fcs with
  | [] => (true, [], [])
  | fc :: rest =>
      if is_performMathOperation fc then
        match FunctionCall.args fc with
        | None => (false, [], [])
        | Some args =>
            let '(ok, calls, acks) := toolCall_loop c rest in
            (ok,
             CallOnOperation (opType (ToPropertyKey (Args.operation args)))
               (Number (Args.value args)) :: calls,
             acknowledgement c fc :: acks)
        end
      else toolCall_loop c rest
  end.

Definition toolCall_part (c : Closure) (m : LiveServerMessage.t)
  : bool * list Effect * list Effect :=
  match LiveServerMessage.toolCall m with
  | None => (true, [], [])
  | Some tc =>
      match LiveServerToolCall.functionCalls tc with
      | None => (false, [], [])
      | Some fcs => toolCall_loop c fcs
      end
  end.

Definition transcript_part (m : LiveServerMessage.t) : list Effect :=
  match inputTranscription_of m with
  | Some transcription =>
      [CallOnTranscriptUpdate (Transcription.text transcription)]
  | None => []
  end.

(** Reading the audio payload: [None] when it throws. *)
Definition audio_part (m : LiveServerMessage.t) : option (option string) :=
  match LiveServerMessage.serverContent m with
  | None => Some None
  | Some sc =>
      match LiveServerContent.modelTurn sc with
      | None => Some None
      | Some turn =>
          match Content.parts turn with
          | None => None
          | Some parts =>
              Some (match nth_error parts 0 with
                    | None => None
                    | Some part =>
                        match Part.inlineData part with
                        | None => None
                        | Some blob => Blob.data blob
                        end
                    end)
          end
      end
  end.

Definition onmessage_outcome (decodeAudioData : string -> option AudioBuffer)
  (c : Closure) (currentTime : Q) (m : LiveServerMessage.t) (w : World)
  : Outcome :=
  let '(ok, calls, acks) := toolCall_part c m in
  if negb ok then
    {| after := w; performed := calls ++ acks; completion := Threw |}
  else
    let said := calls ++ transcript_part m ++ acks in
    match audio_part m with
    | None => {| after := w; performed := said; completion := Threw |}
    | Some base64Audio =>
        match truthy base64Audio, outputAudioContextRef (hook w) with
        | Some data, Some ctx =>
            let start := Qmax (nextStartTimeRef (hook w)) currentTime in
            match decodeAudioData data with
            | None =>
                {| after :=
                     {| hook := set_nextStartTimeRef start (hook w);
                        next_object := next_object w |};
                   performed := said;
                   completion := Threw |}
            | Some audioBuffer =>
                let source := next_object w in
                {| after :=
                     {| hook :=
                          set_sourcesRef
                            (Set_add source (sourcesRef (hook w)))
                            (set_nextStartTimeRef
                               (start + duration audioBuffer)%Q (hook w));
                        next_object := S source |};
                   performed :=
                     said ++ [SourceStart source ctx audioBuffer start];
                   completion := Returned |}
            end
        | _, _ => {| after := w; performed := said; completion := Returned |}
        end
    end.


(** When the last source of a schedule ends ([t] for an empty one). *)
Fixpoint finish (t : Q) (s : list (Q * Q)) : Q :=
  match s with
  | [] => t
  | (start, d) :: rest => finish (start + d)%Q rest
  end.



(** The React flag and the guard move together. *)
Definition in_sync (w : World) : Prop :=
  isConnected (hook w) = activeRef (hook w).


(** What [disconnect()] performs in a given state. *)
Definition disconnect_effects (h : HookState) : list Effect :=
  match inputAudioContextRef h with
  | Some ctx => [AudioContextClose ctx]
  | None => []
  end
  ++ match outputAudioContextRef h with
     | Some ctx => map SourceStop (sourcesRef h) ++ [AudioContextClose ctx]
     | None => []
     end
  ++ match sessionPromiseRef h with
     | Some p => [SessionClose p]
     | None => []
     end.

(** The state [disconnect()] leaves. *)
Definition disconnected (h : HookState) : HookState :=
  {| isConnected := false;
     isConnecting := false;
     error := error h;
     inputAudioContextRef := None;
     outputAudioContextRef := None;
     nextStartTimeRef := nextStartTimeRef h;
     sourcesRef :=
       match outputAudioContextRef h with
       | Some _ => []
       | None => sourcesRef h
       end;
     sessionPromiseRef := None;
     activeRef := false |}.

End LiveMath.

(** ** App.tsx: the hook wired to the callbacks

    [useLiveMath({ onOperation: handleOperation,
                   onTranscriptUpdate: handleTranscript })] *)

Module Page.

Import LiveMath.

(** [<Visualizer history={history} />] is rendered next to the total: the
    total the callback keeps is the chart's fold over the history it
    keeps. *)
Definition in_step (s : App.State) : Prop :=
  App.currentTotal s
  = fold_left Visualizer.step (App.history s) 0%float.

(** No [RESET] item is kept in the history. *)
Definition reset_free (s : App.State) : Prop :=
  Forall (fun h => HistoryItem.operation h <> Member RESET) (App.history s).

(** The callbacks a trace invokes, applied to the component's state;
    [env n] is what the [n]-th call of [handleOperation] reads from its
    environment. *)
Fixpoint deliver (env : nat -> App.Env) (n : nat) (l : list Effect)
  (s : App.State) : App.State :=
  match l with
  | [] => s
  | CallOnOperation op value :: rest =>
      deliver env (S n) rest (App.handleOperation (env n) op value s)
  | CallOnTranscriptUpdate text :: rest =>
      deliver env n rest (App.handleTranscript text s)
  | _ :: rest => deliver env n rest s
  end.

End Page.

(** ** Concrete inputs *)

Module Scenario.

Import LiveMath.

(** A JSON string that is not a numeric literal, and a JSON number given
    with its decimal spelling. *)
Definition text (s : string) : any := {| ToPropertyKey := s; Number := nan |}.
Definition num (spelling : string) (n : float) : any :=
  {| ToPropertyKey := spelling; Number := n |}.

(** A tool-call message with the given function calls and nothing else. *)
Definition toolCall_message (fcs : list FunctionCall.t) : LiveServerMessage.t :=
  {| LiveServerMessage.toolCall :=
       Some {| LiveServerToolCall.functionCalls := Some fcs |};
     LiveServerMessage.serverContent := None |}.

(** An invocation of the declared tool. *)
Definition performMathOperation (id : string) (operation value : any)
  : FunctionCall.t :=
  {| FunctionCall.id := Some id;
     FunctionCall.args :=
       Some {| Args.operation := operation; Args.value := value |};
     FunctionCall.name := Some "performMathOperation" |}.

(** A function call under a name the hook did not declare. *)
Definition otherTool (id : string) (operation value : any) : FunctionCall.t :=
  {| FunctionCall.id := Some id;
     FunctionCall.args :=
       Some {| Args.operation := operation; Args.value := value |};
     FunctionCall.name := Some "otherTool" |}.

(** A message that carries one inline audio fragment and nothing else. *)
Definition audio_message (data : string) : LiveServerMessage.t :=
  {| LiveServerMessage.toolCall := None;
     LiveServerMessage.serverContent :=
       Some {| LiveServerContent.inputTranscription := None;
               LiveServerContent.modelTurn :=
                 Some {| Content.parts :=
                           Some [ {| Part.inlineData :=
                                       Some {| Blob.data := Some data |} |} ]
                      |} |} |}.

(** A message with a partial transcript and one tool call. *)
Definition spoken_message (heard : string) (fc : FunctionCall.t)
  : LiveServerMessage.t :=
  {| LiveServerMessage.toolCall :=
       Some {| LiveServerToolCall.functionCalls := Some [fc] |};
     LiveServerMessage.serverContent :=
       Some {| LiveServerContent.inputTranscription :=
                 Some {| Transcription.text := Some heard |};
               LiveServerContent.modelTurn := None |} |}.

(** A decoder for the examples: mono sound at 24 kHz, every character of
    [data] standing for 50 ms of it (1200 frames). *)
Definition decode_pcm (data : string) : option AudioBuffer :=
  Some {| length := N.of_nat (String.length data * 1200);
          sampleRate := 24000 |}.

(** The first [connect()] of a page allocates the input context [0], the
    output context [1] and the session [2]; its callbacks close over: *)
Definition live : Closure := {| inputCtx := 0; sessionPromise := 2 |}.

(** A session that was connected and opened, and has one fragment
    scheduled. *)
Definition open_and_playing : World :=
  fst (run decode_pcm
         [ Connect Succeeds; OnOpen live;
           OnMessage live (1 # 2) (audio_message "AAAA") ]
         initial).

(** A session that was connected and opened. *)
Definition opened : World :=
  fst (run decode_pcm [ Connect Succeeds; OnOpen live ] initial).


(** A function call the service makes under an undeclared tool name. *)
Definition foreign_call : FunctionCall.t :=
  otherTool "call-1" (text "ADD") (num "50" 50%float).

Definition foreign_message : LiveServerMessage.t :=
  toolCall_message [foreign_call].

(** The same with an operation name outside the declared set. *)
Definition stray_call : FunctionCall.t :=
  otherTool "call-7" (text "SQUARE") (num "3" 3%float).

Definition stray_message : LiveServerMessage.t :=
  toolCall_message [stray_call].

(** "add fifty", heard and recognised. *)
Definition add_fifty : LiveServerMessage.t :=
  spoken_message "add fifty"
    (performMathOperation "call-2" (text "ADD") (num "50" 50%float)).

(** One message with three invocations: a non-numeric operand, an
    undeclared tool, an unknown operation. *)
Definition mixed_message : LiveServerMessage.t :=
  toolCall_message
    [ performMathOperation "a" (text "ADD") (text "fifty");
      foreign_call;
      performMathOperation "b" (text "SQUARE") (num "3" 3%float) ].

(** An invocation of the declared tool that names an inherited property. *)
Definition toString_message : LiveServerMessage.t :=
  toolCall_message
    [ performMathOperation "t" (text "toString") (num "5" 5%float) ].

(** An invocation of the declared tool without [args], between two that
    carry theirs. *)
Definition bare_message : LiveServerMessage.t :=
  toolCall_message
    [ performMathOperation "a" (text "ADD") (num "1" 1%float);
      {| FunctionCall.id := Some "x";
         FunctionCall.args := None;
         FunctionCall.name := Some "performMathOperation" |};
      performMathOperation "b" (text "ADD") (num "2" 2%float) ].

(** An invocation of the declared tool without [args], then one that names
    an operation outside the declared set. *)
Definition slip_message : LiveServerMessage.t :=
  toolCall_message
    [ {| FunctionCall.id := Some "x";
         FunctionCall.args := None;
         FunctionCall.name := Some "performMathOperation" |};
      performMathOperation "b" (text "SQUARE") (num "3" 3%float) ].

Definition env0 (n : nat) : App.Env :=
  {| App.randomUUID := Visualizer.decimal n; App.Date_now := 0%float |}.

End Scenario.

(** ** components/StatsPanel.tsx *)

Module StatsPanel.

(** [interface Stats]; [count] is an array length. *)
Record Stats : Type := mkStats
  { min : float;
    max : float;
    avg : float;
    median : float;
    count : nat }.

(** [h.operation !== 'RESET' && h.operation !== 'UNKNOWN']: the members'
    values are these strings. *)
Definition counted (h : HistoryItem.t) : bool :=
  negb (strict_eq (HistoryItem.operation h) RESET)
  && negb (strict_eq (HistoryItem.operation h) UNKNOWN).

(** The callback of [map]: a subtracted value counts as negative. *)
Definition signed (h : HistoryItem.t) : float :=
  if strict_eq (HistoryItem.operation h) SUBTRACT
  then (- HistoryItem.value h)%float
  else HistoryItem.value h.

Definition values (history : list HistoryItem.t) : list float :=
  map signed (filter counted history).

Definition is_neg_zero (x : float) : bool := is_zero x && get_sign x.
Definition is_pos_zero (x : float) : bool := is_zero x && negb (get_sign x).

(** [Math.min(...l)] from the lowest value seen so far: a NaN argument makes
    the result NaN, and -0 is below +0. *)
Fixpoint Math_min_from (lowest : float) (l : list float) : float :=
  match l with
  | [] => lowest
  | number :: rest =>
      if is_nan number then nan
      else if is_neg_zero number && is_pos_zero lowest
      then Math_min_from number rest
      else if (number <? lowest)%float then Math_min_from number rest
      else Math_min_from lowest rest
  end.

Definition Math_min (l : list float) : float := Math_min_from infinity l.

(** [Math.max(...l)], likewise. *)
Fixpoint Math_max_from (highest : float) (l : list float) : float :=
  match l with
  | [] => highest
  | number :: rest =>
      if is_nan number then nan
      else if is_pos_zero number && is_neg_zero highest
      then Math_max_from number rest
      else if (highest <? number)%float then Math_max_from number rest
      else Math_max_from highest rest
  end.

Definition Math_max (l : list float) : float := Math_max_from neg_infinity l.

(** An array length as a number (exact below 2^53). *)
Fixpoint of_length (n : nat) : float :=
  match n with
  | O => 0%float
  | S k => (of_length k + 1)%float
  end.

(** [[...values].sort((a, b) => a - b)]: the sort is stable, so with this
    comparator it is the insertion of each value after the values that are
    not above it ([a - b] is not positive).  When a value is NaN the
    comparator is not an ordering and the result depends on the engine;
    nothing below relies on the order then. *)
Fixpoint insert (x : float) (sorted : list float) : list float :=
  match sorted with
  | [] => [x]
  | y :: rest =>
      if (0 <? y - x)%float then x :: y :: rest else y :: insert x rest
  end.

Definition sort (l : list float) : list float :=
  fold_left (fun sorted x => insert x sorted) l [].

(** [sorted[i]]; an index out of range reads [undefined], which the
    arithmetic turns into NaN. *)
Definition at_index (sorted : list float) (i : nat) : float :=
  nth i sorted nan.

(** The memoised [stats]. *)
Definition stats (history : list HistoryItem.t) : Stats :=
  let values := values history in
  match values with
  | [] =>
      {| min := 0; max := 0; avg := 0; median := 0; count := 0 |}
  | _ :: _ =>
      let sum := fold_left (fun a b => (a + b)%float) values 0%float in
      let sorted := sort values in
      let mid := Nat.div (List.length sorted) 2 in
      {| min := Math_min values;
         max := Math_max values;
         avg := (sum / of_length (List.length values))%float;
         median :=
           if negb (Nat.eqb (Nat.modulo (List.length sorted) 2) 0)
           then at_index sorted mid
           else ((at_index sorted (mid - 1) + at_index sorted mid) / 2)%float;
         count := List.length values |}
  end.

End StatsPanel.

(** ** components/HistoryTape.tsx *)

Module HistoryTape.

(** [getOpSymbol] *)
Definition getOpSymbol (op : OpValue) : string :=
  match op with
  | Member ADD => "+"
  | Member SUBTRACT => "-"
  | Member MULTIPLY => "×"
  | Member DIVIDE => "÷"
  | Member RESET => "↺"
  | Member UNKNOWN | Inherited _ => "?"
  end.

(** The colour classes of an item's badge: one conditional per declared
    operation, each contributing its classes or nothing. *)
Definition badge (op : OpValue) : list string :=
  (if strict_eq op ADD then ["bg-blue-500/20 text-blue-400"] else [])
  ++ (if strict_eq op SUBTRACT then ["bg-red-500/20 text-red-400"] else [])
  ++ (if strict_eq op MULTIPLY then ["bg-yellow-500/20 text-yellow-400"] else [])
  ++ (if strict_eq op DIVIDE then ["bg-orange-500/20 text-orange-400"] else [])
  ++ (if strict_eq op RESET then ["bg-gray-500/20 text-gray-400"] else []).

(** One row of the tape: the key, the badge and its symbol, the item whose
    value and time are shown. *)
Record Row : Type := mkRow
  { key : string;
    classes : list string;
    symbol : string;
    item : HistoryItem.t }.

(** What the component renders: [None] is the placeholder "History is
    empty. Start speaking...". *)
Definition render (history : list HistoryItem.t) : option (list Row) :=
  match history with
  | [] => None
  | _ :: _ =>
      Some (map (fun item =>
                   {| key := HistoryItem.id item;
                      classes := badge (HistoryItem.operation item);
                      symbol := getOpSymbol (HistoryItem.operation item);
                      item := item |})
              history)
  end.

End HistoryTape.

(** ** Further readings of a session *)

Module Reading.

Import LiveMath.

(** The sources started, in order. *)
Definition is_SourceStart (e : Effect) : bool :=
  match e with
  | SourceStart _ _ _ _ => true
  | _ => false
  end.

Definition started (l : list Effect) : list Effect :=
  filter is_SourceStart l.

(** The nodes started. *)
Fixpoint started_nodes (l : list Effect) : list nat :=
  match l with
  | [] => []
  | SourceStart node _ _ _ :: rest => node :: started_nodes rest
  | _ :: rest => started_nodes rest
  end.

(** The operations a trace hands to [onOperation], in order. *)
Fixpoint operations (l : list Effect) : list (OpValue * float) :=
  match l with
  | [] => []
  | CallOnOperation op value :: rest => (op, value) :: operations rest
  | _ :: rest => operations rest
  end.

(** The transcripts a trace hands to [onTranscriptUpdate], in order. *)
Fixpoint transcripts (l : list Effect) : list (option string) :=
  match l with
  | [] => []
  | CallOnTranscriptUpdate text :: rest => text :: transcripts rest
  | _ :: rest => transcripts rest
  end.

(** The calls of [handleOperation] that a list of operations makes, the
    first of them reading [env n]. *)
Fixpoint calls_from (env : nat -> App.Env) (n : nat)
  (ops : list (OpValue * float)) : list App.Call :=
  match ops with
  | [] => []
  | (op, value) :: rest =>
      {| App.call_env := env n; App.call_op := op; App.call_value := value |}
        :: calls_from env (S n) rest
  end.

(** The invocations the loop over a message's function calls handles,
    each with its argument object: those of the declared tool, up to the
    first of them that carries no arguments. *)
Fixpoint handled (fcs : list FunctionCall.t)
  : list (FunctionCall.t * Args.t) :=
  match fcs with
  | [] => []
  | fc :: rest =>
      if is_performMathOperation fc then
        match FunctionCall.args fc with
        | Some args => (fc, args) :: handled rest
        | None => []
        end
      else handled rest
  end.

(** The call of [onOperation] for a handled invocation. *)
Definition operation_of (h : FunctionCall.t * Args.t) : Effect :=
  CallOnOperation (opType (ToPropertyKey (Args.operation (snd h))))
    (Number (Args.value (snd h))).

(** The loop over the function calls of a message, if it has a tool call,
    runs to its end: the list is there and no invocation of the declared
    tool lacks its arguments. *)
Definition loop_ends (m : LiveServerMessage.t) : bool :=
  match LiveServerMessage.toolCall m with
  | None => true
  | Some tc =>
      match LiveServerToolCall.functionCalls tc with
      | None => false
      | Some fcs => forallb has_args fcs
      end
  end.

(** Every event but a call of [connect()] or of [disconnect()]. *)
Definition in_session (e : Event) : bool :=
  match e with
  | Connect _ | Disconnect => false
  | _ => true
  end.

(** Every event but the end of a source and a call of [disconnect()]: the
    events that take nothing out of the active set. *)
Definition keeps_sources (e : Event) : bool :=
  match e with
  | OnEnded _ | Disconnect => false
  | _ => true
  end.

(** Every audio context a ref holds was created as object [n] or later. *)
Definition held_from (n : nat) (w : World) : Prop :=
  (n <= next_object w)%nat
  /\ (forall ctx,
         inputAudioContextRef (hook w) = Some ctx -> (n <= ctx)%nat)
  /\ (forall ctx,
         outputAudioContextRef (hook w) = Some ctx -> (n <= ctx)%nat).

(** The hook never shows itself connected and connecting at once. *)
Definition one_phase (w : World) : Prop :=
  isConnected (hook w) && isConnecting (hook w) = false.

(** The calls of a sequence after its last [RESET]. *)
Fixpoint since_reset (calls : list App.Call) : list App.Call :=
  match calls with
  | [] => []
  | c :: rest =>
      if existsb (fun c' => strict_eq (App.call_op c') RESET) rest
      then since_reset rest
      else if strict_eq (App.call_op c) RESET then rest else c :: rest
  end.

(** The item [handleOperation] appends for a call. *)
Definition item_of (c : App.Call) : HistoryItem.t :=
  {| HistoryItem.id := App.randomUUID (App.call_env c);
     HistoryItem.value := App.call_value c;
     HistoryItem.operation := App.call_op c;
     HistoryItem.timestamp := App.Date_now (App.call_env c) |}.

End Reading.

(** ** The playback arithmetic of hooks/useLiveMath.ts

    Lines 139, 156 and 157 of the hook on the numbers the browser works
    with: [nextStartTimeRef.current], [ctx.currentTime] and
    [audioBuffer.duration] are binary64 numbers, [Math.max] and [+=] are
    JavaScript's. *)

Module Playback.

(** [Math.max(a, b)] *)
Definition Math_max (a b : float) : float := StatsPanel.Math_max [a; b].

(** What the three lines do with one decoded buffer: the time handed to
    [source.start] and the new value of [nextStartTimeRef.current]. *)
Definition schedule_buffer (nextStartTimeRef currentTime duration : float)
  : float * float :=
  let nextStartTimeRef := Math_max nextStartTimeRef currentTime in
  let when := nextStartTimeRef in
  let nextStartTimeRef := (nextStartTimeRef + duration)%float in
  (when, nextStartTimeRef).

(** A decoded fragment as the scheduler meets it: what [ctx.currentTime]
    reads when its message is handled, and [audioBuffer.duration]. *)
Record Fragment : Type := mkFragment
  { currentTime : float;
    duration : float }.

(** The fragments of a session scheduled one after the other, the ref
    holding [nextStartTimeRef] before the first: start time and duration
    of each source, in scheduling order. *)
Fixpoint playback (nextStartTimeRef : float) (fragments : list Fragment)
  : list (float * float) :=
  match fragments with
  | [] => []
  | f :: rest =>
      let '(when, next) :=
        schedule_buffer nextStartTimeRef (currentTime f) (duration f) in
      (when, duration f) :: playback next rest
  end.







(** The real number a finite double stands for (0 for the others). *)
Definition exact (x : float) : Q :=
  match Prim2SF x with
  | S754_finite s m e =>
      ((if s then -1 else 1) * inject_Z (Z.pos m) * (2 ^ e))%Q
  | _ => 0%Q
  end.

End Playback.

(** * Properties *)

(** ** The accumulator and the chart *)

Module Accumulator.

Import App Page.

(** Outside [RESET] the chart's [if] chain and the callback's [switch]
    compute the same total. *)
Lemma step_newTotal (runningTotal : float) (h : HistoryItem.t) :
  strict_eq (HistoryItem.operation h) RESET = false ->
  Visualizer.step runningTotal h
  = newTotal runningTotal (HistoryItem.operation h) (HistoryItem.value h).
Proof.
  unfold Visualizer.step.
  destruct (HistoryItem.operation h) as [[]|k]; simpl;
    intros E; try discriminate E; reflexivity.
Qed.

(** The last point pushed by the loop holds the fold of [step]. *)
Lemma forEach_last (history : list HistoryItem.t) :
  forall (idx : nat) (p d : Visualizer.Point),
    Visualizer.total
      (last (p :: Visualizer.forEach idx (Visualizer.total p) history) d)
    = fold_left Visualizer.step history (Visualizer.total p).
Proof.
  induction history as [|h rest IH]; intros idx p d.
  - reflexivity.
  - cbn [Visualizer.forEach fold_left].
    set (q := {| Visualizer.name := Visualizer.decimal (idx + 1);
                 Visualizer.total := Visualizer.step (Visualizer.total p) h |}).
    change (Visualizer.step (Visualizer.total p) h) with (Visualizer.total q).
    rewrite <- (IH (S idx) q d).
    reflexivity.
Qed.

Lemma last_total_fold (history : list HistoryItem.t) :
  Visualizer.last_total history = fold_left Visualizer.step history 0%float.
Proof.
  unfold Visualizer.last_total, Visualizer.data.
  apply (forEach_last history 0 Visualizer.start Visualizer.start).
Qed.

Lemma handleOperation_in_step (env : Env) (op : OpValue) (value : float)
  (s : State) :
  in_step s -> in_step (handleOperation env op value s).
Proof.
  unfold in_step, handleOperation. intros I.
  destruct (strict_eq op RESET) eqn:E; cbn [currentTotal history].
  - reflexivity.
  - rewrite fold_left_app. cbn [fold_left].
    rewrite <- I.
    rewrite step_newTotal by exact E.
    reflexivity.
Qed.

Lemma apply_calls_in_step (calls : list Call) :
  forall s, in_step s -> in_step (apply_calls calls s).
Proof.
  induction calls as [|c rest IH]; intros s I.
  - exact I.
  - apply IH. apply handleOperation_in_step, I.
Qed.

Lemma handleOperation_reset_free (env : Env) (op : OpValue) (value : float)
  (s : State) :
  reset_free s -> reset_free (handleOperation env op value s).
Proof.
  unfold reset_free, handleOperation. intros F.
  destruct (strict_eq op RESET) eqn:E; cbn [history].
  - constructor.
  - apply Forall_app. split; [exact F|].
    constructor; [|constructor].
    cbn. intros ->. discriminate E.
Qed.

Lemma apply_calls_reset_free (calls : list Call) :
  forall s, reset_free s -> reset_free (apply_calls calls s).
Proof.
  induction calls as [|c rest IH]; intros s F.
  - exact F.
  - apply IH. apply handleOperation_reset_free, F.
Qed.

(** C9.  For every sequence of operations applied through the App's
    operation callback, starting from the component's initial state, the
    running total it ends with is the total of the last point the
    Visualizer computes from the resulting history: the callback's switch and
    the chart's fold agree, also on a division by zero (skipped by both) and
    on [UNKNOWN] (ignored by both). *)
Theorem visualizer_matches_total (calls : list Call) :
  Visualizer.last_total (history (apply_calls calls initial))
  = currentTotal (apply_calls calls initial).
Proof.
  rewrite last_total_fold.
  symmetry. apply (apply_calls_in_step calls initial).
  reflexivity.
Qed.

(** C10.  A [RESET] sets the running total to 0 and empties the history;
    so whatever sequence of operations is applied through the callback, the
    history holds no [RESET] item; an [UNKNOWN] operation is appended to the
    history with its operand (and leaves the total as it was). *)
Theorem reset_clears_history :
  (forall env value s,
      currentTotal (handleOperation env (Member RESET) value s) = 0%float
      /\ history (handleOperation env (Member RESET) value s) = [])
  /\ (forall calls,
         Forall (fun h => HistoryItem.operation h <> Member RESET)
           (history (apply_calls calls initial)))
  /\ (forall env value s,
         history (handleOperation env (Member UNKNOWN) value s)
         = history s
             ++ [ {| HistoryItem.id := randomUUID env;
                     HistoryItem.value := value;
                     HistoryItem.operation := Member UNKNOWN;
                     HistoryItem.timestamp := Date_now env |} ]
         /\ currentTotal (handleOperation env (Member UNKNOWN) value s)
            = currentTotal s).
Proof.
  split; [|split].
  - intros env value s. split; reflexivity.
  - intros calls. apply (apply_calls_reset_free calls initial). constructor.
  - intros env value s. split; reflexivity.
Qed.

(** The end-to-end scenario of the specification, on the accumulator:
    [ADD 50] then [DIVIDE 0] leaves 50. *)
Example add_50_then_divide_by_0 :
  currentTotal
    (apply_calls
       [ {| call_env := Scenario.env0 0; call_op := Member ADD;
            call_value := 50%float |};
         {| call_env := Scenario.env0 1; call_op := Member DIVIDE;
            call_value := 0%float |} ]
       initial)
  = 50%float.
Proof. reflexivity. Qed.

End Accumulator.


(** ** The session hook *)

Module Session.

Import LiveMath.
Local Open Scope act_scope.

(** Unfolds the plumbing of a handler, keeping [emit] and [for_of]. *)
Ltac act :=
  cbv beta iota delta
    [bind ret throw gets modify defer alloc await defined try_catch passes
     checkpoint].

Lemma for_of_stop (l : list nat) :
  forall t,
    for_of l (fun s => emit (SourceStop s)) t
    = (Some tt,
       {| state := state t; heap := heap t;
          effects := effects t ++ map SourceStop l;
          microtasks := microtasks t |}).
Proof.
  induction l as [|x rest IH]; intros t.
  - cbn. rewrite app_nil_r. destruct t; reflexivity.
  - cbn [for_of map]. unfold bind at 1. unfold emit at 1.
    rewrite IH. cbn. rewrite <- app_assoc. reflexivity.
Qed.

(** The loop over the function calls, in closed form. *)
Lemma toolCall_loop_run (c : Closure) (fcs : list FunctionCall.t) :
  forall t,
    for_of fcs (handleFunctionCall c) t
    = let '(ok, calls, acks) := toolCall_loop c fcs in
      (if ok then Some tt else None,
       {| state := state t; heap := heap t;
          effects := effects t ++ calls;
          microtasks := microtasks t ++ acks |}).
Proof.
  induction fcs as [|fc rest IH]; intros t.
  - cbn. rewrite !app_nil_r. destruct t; reflexivity.
  - cbn [for_of toolCall_loop]. unfold bind at 1.
    unfold handleFunctionCall at 1.
    destruct (is_performMathOperation fc).
    + destruct (FunctionCall.args fc) as [args|].
      * unfold emit; act. rewrite IH.
        destruct (toolCall_loop c rest) as [[ok calls] acks].
        cbn. rewrite <- !app_assoc. reflexivity.
      * act. rewrite !app_nil_r. destruct t; reflexivity.
    + act. rewrite IH. reflexivity.
Qed.

(** *** Reading traces *)

Lemma filter_drop {A : Type} (f : A -> bool) (l : list A) :
  Forall (fun x => f x = false) l -> filter f l = [].
Proof.
  induction 1 as [|x l Hx _ IH]; cbn; [reflexivity|].
  rewrite Hx, IH. reflexivity.
Qed.

Lemma schedule_app (l1 l2 : list Effect) :
  schedule (l1 ++ l2) = schedule l1 ++ schedule l2.
Proof.
  induction l1 as [|e l1 IH]; [reflexivity|].
  destruct e; cbn; rewrite ?IH; reflexivity.
Qed.

(** Callback invocations are neither acknowledgements, nor frames, nor
    scheduled sources. *)
Lemma read_calls (l : list Effect) :
  Forall (fun e => is_callback e = true) l ->
  acknowledgements l = [] /\ frames_sent l = [] /\ schedule l = []
  /\ callbacks l = l.
Proof.
  induction 1 as [|e l He _ (IHa & IHf & IHs & IHc)]; [repeat split|].
  destruct e; try discriminate He; cbn;
    rewrite ?IHs; fold (acknowledgements l) (frames_sent l) (callbacks l);
    rewrite IHa, IHf, IHc; repeat split.
Qed.

(** Acknowledgements are neither callback invocations, nor frames, nor
    scheduled sources. *)
Lemma read_acks (l : list Effect) :
  Forall (fun e => is_ToolResponse e = true) l ->
  acknowledgements l = l /\ frames_sent l = [] /\ schedule l = []
  /\ callbacks l = [].
Proof.
  induction 1 as [|e l He _ (IHa & IHf & IHs & IHc)]; [repeat split|].
  destruct e; try discriminate He; cbn;
    rewrite ?IHs; fold (acknowledgements l) (frames_sent l) (callbacks l);
    rewrite IHa, IHf, IHc; repeat split.
Qed.

Lemma read_stops (l : list nat) :
  acknowledgements (map SourceStop l) = []
  /\ frames_sent (map SourceStop l) = []
  /\ schedule (map SourceStop l) = [].
Proof.
  induction l as [|x l (IHa & IHf & IHs)]; [repeat split|].
  cbn. fold (acknowledgements (map SourceStop l)) (frames_sent (map SourceStop l)).
  rewrite IHa, IHf, IHs. repeat split.
Qed.

(** What the loop over the function calls produces, by kind. *)
Lemma toolCall_loop_kinds (c : Closure) (fcs : list FunctionCall.t) :
  Forall (fun e => is_callback e = true) (snd (fst (toolCall_loop c fcs)))
  /\ Forall (fun e => is_ToolResponse e = true) (snd (toolCall_loop c fcs)).
Proof.
  induction fcs as [|fc rest [IHc IHa]]; cbn; [split; constructor|].
  destruct (is_performMathOperation fc); [|split; assumption].
  destruct (FunctionCall.args fc) as [args|]; [|split; constructor].
  destruct (toolCall_loop c rest) as [[ok calls] acks]; cbn in *.
  split; constructor; try reflexivity; assumption.
Qed.

Lemma toolCall_part_kinds (c : Closure) (m : LiveServerMessage.t) :
  Forall (fun e => is_callback e = true) (snd (fst (toolCall_part c m)))
  /\ Forall (fun e => is_ToolResponse e = true) (snd (toolCall_part c m)).
Proof.
  unfold toolCall_part.
  destruct (LiveServerMessage.toolCall m) as [tc|]; [|split; constructor].
  destruct (LiveServerToolCall.functionCalls tc) as [fcs|];
    [apply toolCall_loop_kinds|split; constructor].
Qed.

Lemma transcript_part_kind (m : LiveServerMessage.t) :
  Forall (fun e => is_callback e = true) (transcript_part m).
Proof.
  unfold transcript_part.
  destruct (inputTranscription_of m); repeat constructor.
Qed.

(** What a handler has said once the callbacks are invoked and the
    acknowledgements sent. *)
Lemma read_said (calls trs acks : list Effect) :
  Forall (fun e => is_callback e = true) calls ->
  Forall (fun e => is_callback e = true) trs ->
  Forall (fun e => is_ToolResponse e = true) acks ->
  acknowledgements (calls ++ trs ++ acks) = acks
  /\ frames_sent (calls ++ trs ++ acks) = []
  /\ schedule (calls ++ trs ++ acks) = []
  /\ callbacks (calls ++ trs ++ acks) = calls ++ trs.
Proof.
  intros Hc Ht Ha.
  destruct (read_calls calls Hc) as (c1 & c2 & c3 & c4).
  destruct (read_calls trs Ht) as (t1 & t2 & t3 & t4).
  destruct (read_acks acks Ha) as (a1 & a2 & a3 & a4).
  unfold acknowledgements, frames_sent, callbacks in *.
  rewrite !filter_app, !schedule_app.
  rewrite c1, c2, c3, c4, t1, t2, t3, t4, a1, a2, a3, a4.
  rewrite !app_nil_r. repeat split.
Qed.

(** When every invocation of the declared tool carries its arguments the
    loop runs to its end and leaves one acknowledgement per such
    invocation, in order. *)
Lemma toolCall_loop_has_args (c : Closure) (fcs : list FunctionCall.t) :
  Forall (fun fc => has_args fc = true) fcs ->
  fst (fst (toolCall_loop c fcs)) = true
  /\ snd (toolCall_loop c fcs)
     = map (acknowledgement c) (filter is_performMathOperation fcs).
Proof.
  induction 1 as [|fc rest Hfc _ [IHok IHa]]; cbn; [split; reflexivity|].
  unfold has_args in Hfc.
  destruct (is_performMathOperation fc); cbn in Hfc |- *; [|split; assumption].
  destruct (FunctionCall.args fc) as [args|]; [|discriminate Hfc].
  destruct (toolCall_loop c rest) as [[ok calls] acks]; cbn in *.
  split; [assumption|]. rewrite IHa. reflexivity.
Qed.

(** The fallback to [UNKNOWN]: taken for every key that is no property of
    the enum object, own or inherited. *)
Lemma opType_unknown (key : string) :
  ~ In key declared_operations ->
  ~ In key Object_prototype_keys ->
  opType key = Member UNKNOWN.
Proof.
  intros Hd Hp. unfold opType, OperationType_get.
  assert (Hex : existsb (String.eqb key) Object_prototype_keys = false).
  { destruct (existsb (String.eqb key) Object_prototype_keys) eqn:E;
      [|reflexivity].
    apply existsb_exists in E. destruct E as (k & Hin & Hk).
    apply String.eqb_eq in Hk. subst k. contradiction. }
  rewrite Hex. unfold OperationType_members. cbn [find fst].
  destruct (String.eqb_spec "ADD" key) as [E|_];
    [exfalso; apply Hd; rewrite <- E; cbn; tauto|].
  destruct (String.eqb_spec "SUBTRACT" key) as [E|_];
    [exfalso; apply Hd; rewrite <- E; cbn; tauto|].
  destruct (String.eqb_spec "MULTIPLY" key) as [E|_];
    [exfalso; apply Hd; rewrite <- E; cbn; tauto|].
  destruct (String.eqb_spec "DIVIDE" key) as [E|_];
    [exfalso; apply Hd; rewrite <- E; cbn; tauto|].
  destruct (String.eqb_spec "RESET" key) as [E|_];
    [exfalso; apply Hd; rewrite <- E; cbn; tauto|].
  destruct (String.eqb "UNKNOWN" key); reflexivity.
Qed.

Lemma duration_nonneg (b : AudioBuffer) : (0 <= duration b)%Q.
Proof.
  unfold duration, Qle. cbn. lia.
Qed.

Lemma back_to_back_earlier (s : list (Q * Q)) (t t' : Q) :
  (t' <= t)%Q -> back_to_back t s -> back_to_back t' s.
Proof.
  destruct s as [|[start d] rest]; cbn; [trivial|].
  intros Ht [H1 H2]. split; [|exact H2].
  apply Qle_trans with t; assumption.
Qed.

Lemma back_to_back_app (s1 s2 : list (Q * Q)) :
  forall t,
    back_to_back t s1 -> back_to_back (finish t s1) s2 ->
    back_to_back t (s1 ++ s2).
Proof.
  induction s1 as [|[start d] rest IH]; intros t; cbn.
  - intros _ H. exact H.
  - intros [H1 H2] H3. split; [exact H1|]. apply IH; assumption.
Qed.

Lemma finish_app (s1 s2 : list (Q * Q)) :
  forall t, finish t (s1 ++ s2) = finish (finish t s1) s2.
Proof.
  induction s1 as [|[start d] rest IH]; intros t; cbn; [reflexivity|].
  apply IH.
Qed.

Lemma finish_later (s : list (Q * Q)) (t t' : Q) :
  (t <= t')%Q -> (finish t s <= finish t' s)%Q.
Proof.
  destruct s as [|[start d] rest]; cbn; [trivial|].
  intros _. apply Qle_refl.
Qed.

Lemma schedule_durations (l : list Effect) :
  Forall (fun sd => (0 <= snd sd)%Q) (schedule l).
Proof.
  induction l as [|e l IH]; [constructor|].
  destruct e; cbn; try exact IH.
  constructor; [apply duration_nonneg|exact IH].
Qed.

Section Facts.

Variable decodeAudioData : string -> option AudioBuffer.

Lemma step_onmessage (c : Closure) (currentTime : Q)
  (m : LiveServerMessage.t) (w : World) :
  step decodeAudioData (OnMessage c currentTime m) w
  = onmessage_outcome decodeAudioData c currentTime m w.
Proof.
  destruct w as [[cd cg er i o nx so p ac] n].
  destruct m as [tc sc].
  unfold step, handler, onmessage, onmessage_outcome, toolCall_part,
    transcript_part, audio_part, inputTranscription_of, base64Audio_of.
  cbn [LiveServerMessage.toolCall LiveServerMessage.serverContent].
  act.
  destruct tc as [[[fcs|]]|]; cbn;
    rewrite ?toolCall_loop_run;
    try (destruct (toolCall_loop c fcs) as [[[|] calls] acks]); cbn;
    rewrite ?app_nil_r; try reflexivity;
    destruct sc as [[[[txt]|] [[[parts|]]|]]|]; unfold emit; cbn;
    rewrite ?app_nil_r; try reflexivity.
  all: try match goal with
           | |- context [truthy ?x] => destruct (truthy x) as [data|]
           end;
    destruct o as [ctx|]; try destruct (decodeAudioData data);
    cbn; rewrite ?app_nil_r, <- ?app_assoc; reflexivity.
Qed.

(** [disconnect()] in closed form: it always returns. *)
Lemma step_disconnect (w : World) :
  step decodeAudioData Disconnect w
  = {| after := {| hook := disconnected (hook w);
                   next_object := next_object w |};
       performed := disconnect_effects (hook w);
       completion := Returned |}.
Proof.
  destruct w as [[cd cg er [i|] [o|] nx so [p|] ac] n];
    unfold step, handler, disconnect, disconnected, disconnect_effects;
    act; cbn; rewrite ?for_of_stop; unfold emit; cbn;
    rewrite ?app_nil_r, <- ?app_assoc; reflexivity.
Qed.

(** [connect()] under a set guard does nothing at all. *)
Lemma step_connect_active (env : Setup) (w : World) :
  activeRef (hook w) = true ->
  step decodeAudioData (Connect env) w
  = {| after := w; performed := []; completion := Returned |}.
Proof.
  destruct w as [[cd cg er i o nx so p ac] n]. cbn. intros ->.
  reflexivity.
Qed.

(** [onerror] in closed form. *)
Lemma step_onerror (w : World) :
  step decodeAudioData OnError w
  = {| after :=
         {| hook :=
              set_activeRef false
                (setIsConnected false
                   (setError (Some "Connection error occurred.") (hook w)));
            next_object := next_object w |};
       performed := [];
       completion := Returned |}.
Proof. destruct w as [h n]. reflexivity. Qed.

(** [onaudioprocess] in closed form. *)
Lemma step_onaudioprocess (c : Closure) (inputData : list float) (w : World) :
  step decodeAudioData (OnAudioProcess c inputData) w
  = {| after := w;
       performed :=
         if activeRef (hook w)
         then [SendRealtimeInput (sessionPromise c) inputData]
         else [];
       completion := Returned |}.
Proof.
  destruct w as [[cd cg er i o nx so p [|]] n]; reflexivity.
Qed.

Lemma step_in_sync (e : Event) (w : World) :
  in_sync w -> in_sync (after (step decodeAudioData e w)).
Proof.
  unfold in_sync. intros I.
  destruct e as [env| |c|c inputData|c currentTime m|source| |].
  - destruct w as [[cd cg er i o nx so p [|]] n]; cbn in I |- *.
    + exact I.
    + destruct env as [|[] msg]; cbn; exact I.
  - rewrite step_disconnect. reflexivity.
  - reflexivity.
  - rewrite step_onaudioprocess. exact I.
  - rewrite step_onmessage. unfold onmessage_outcome.
    destruct (toolCall_part c m) as [[[|] calls] acks]; cbn; [|exact I].
    destruct (audio_part m) as [b|]; [|exact I].
    destruct (truthy b) as [data|]; [|exact I].
    destruct (outputAudioContextRef (hook w)) as [ctx|]; [|exact I].
    destruct (decodeAudioData data); exact I.
  - exact I.
  - reflexivity.
  - reflexivity.
Qed.

Lemma run_in_sync (es : list Event) :
  forall w, in_sync w -> in_sync (fst (run decodeAudioData es w)).
Proof.
  induction es as [|e rest IH]; intros w I.
  - exact I.
  - cbn [run].
    destruct (run decodeAudioData rest (after (step decodeAudioData e w)))
      as [w' l] eqn:R.
    cbn. change w' with (fst (w', l)). rewrite <- R.
    apply IH, step_in_sync, I.
Qed.

(** C7.  Calling connect() while a session is active (the guard is set; on
    every state the hook can reach this is the same as [isConnected]) is a
    no-op: the call returns, nothing is performed (no audio context is
    created, no microphone is requested, no second session is opened) and
    the hook's state, with isConnected, isConnecting and error, is left as
    it was. *)
Theorem connect_while_active_is_noop (env : Setup) :
  (forall w,
      activeRef (hook w) = true ->
      step decodeAudioData (Connect env) w
      = {| after := w; performed := []; completion := Returned |})
  /\ (forall es,
         let w := fst (run decodeAudioData es initial) in
         isConnected (hook w) = true ->
         step decodeAudioData (Connect env) w
         = {| after := w; performed := []; completion := Returned |}).
Proof.
  split.
  - intros w A. apply step_connect_active, A.
  - intros es w C. apply step_connect_active.
    rewrite <- C. symmetry.
    apply (run_in_sync es initial). reflexivity.
Qed.

(** C8.  disconnect() can be called in any state: it returns (it never
    throws) and leaves isConnected and isConnecting false; called again
    right after, it returns again, performs nothing and changes nothing;
    called before any connect(), it leaves the initial state untouched. *)
Theorem disconnect_is_always_safe :
  (forall w,
      let o := step decodeAudioData Disconnect w in
      completion o = Returned
      /\ isConnected (hook (after o)) = false
      /\ isConnecting (hook (after o)) = false)
  /\ (forall w,
         let o := step decodeAudioData Disconnect w in
         step decodeAudioData Disconnect (after o)
         = {| after := after o; performed := []; completion := Returned |})
  /\ step decodeAudioData Disconnect initial
     = {| after := initial; performed := []; completion := Returned |}.
Proof.
  split; [|split].
  - intros w. cbv zeta. rewrite step_disconnect. repeat split.
  - intros w. cbv zeta. rewrite !step_disconnect.
    destruct w as [[cd cg er i o nx so p ac] n]. cbn.
    destruct o; reflexivity.
  - reflexivity.
Qed.



(** *** One turn of [onmessage], observed *)

Lemma onmessage_reads (c : Closure) (currentTime : Q)
  (m : LiveServerMessage.t) (w : World) :
  let o := onmessage_outcome decodeAudioData c currentTime m w in
  acknowledgements (performed o) = snd (toolCall_part c m)
  /\ frames_sent (performed o) = []
  /\ callbacks (performed o)
     = (if fst (fst (toolCall_part c m))
        then snd (fst (toolCall_part c m)) ++ transcript_part m
        else snd (fst (toolCall_part c m))).
Proof.
  cbv zeta. unfold onmessage_outcome.
  destruct (toolCall_part_kinds c m) as [Kc Ka].
  pose proof (transcript_part_kind m) as Kt.
  destruct (toolCall_part c m) as [[ok calls] acks]. cbn in Kc, Ka |- *.
  destruct ok; cbn.
  - destruct (read_said calls (transcript_part m) acks Kc Kt Ka)
      as (Ra & Rf & _ & Rc).
    destruct (audio_part m) as [b|]; [|repeat split; assumption].
    destruct (truthy b) as [data|]; [|repeat split; assumption].
    destruct (outputAudioContextRef (hook w)) as [ctx|];
      [|repeat split; assumption].
    destruct (decodeAudioData data) as [buf|];
      [|repeat split; assumption].
    cbn [performed]. unfold acknowledgements, frames_sent, callbacks in *.
    rewrite (filter_app is_ToolResponse), (filter_app is_RealtimeInput),
      (filter_app is_callback), Ra, Rf, Rc.
    cbn. rewrite !app_nil_r.
    repeat split.
  - destruct (read_said calls [] acks Kc (Forall_nil _) Ka)
      as (Ra & Rf & _ & Rc).
    cbn in Ra, Rf, Rc. rewrite app_nil_r in Rc.
    repeat split; assumption.
Qed.

(** Whatever the message, the schedule stays back to back and the
    watermark does not move backwards. *)
Lemma onmessage_time (c : Closure) (currentTime : Q)
  (m : LiveServerMessage.t) (w : World) :
  let o := onmessage_outcome decodeAudioData c currentTime m w in
  back_to_back (nextStartTimeRef (hook w)) (schedule (performed o))
  /\ (finish (nextStartTimeRef (hook w)) (schedule (performed o))
      <= nextStartTimeRef (hook (after o)))%Q.
Proof.
  cbv zeta. unfold onmessage_outcome.
  destruct (toolCall_part_kinds c m) as [Kc Ka].
  pose proof (transcript_part_kind m) as Kt.
  destruct (toolCall_part c m) as [[ok calls] acks]. cbn in Kc, Ka |- *.
  destruct ok; cbn.
  - destruct (read_said calls (transcript_part m) acks Kc Kt Ka)
      as (_ & _ & Rs & _).
    destruct (audio_part m) as [b|];
      [|cbn; rewrite Rs; split; [exact I|apply Qle_refl]].
    destruct (truthy b) as [data|];
      [|cbn; rewrite Rs; split; [exact I|apply Qle_refl]].
    destruct (outputAudioContextRef (hook w)) as [ctx|];
      [|cbn; rewrite Rs; split; [exact I|apply Qle_refl]].
    destruct (decodeAudioData data) as [buf|]; cbn.
    + rewrite schedule_app, Rs. cbn.
      repeat split; [apply Q.le_max_l|apply Qle_refl].
    + rewrite Rs. cbn. split; [exact I|apply Q.le_max_l].
  - destruct (read_said calls [] acks Kc (Forall_nil _) Ka)
      as (_ & _ & Rs & _).
    cbn in Rs. rewrite Rs. split; [exact I|apply Qle_refl].
Qed.


(** *** Any turn, observed *)

Lemma disconnect_effects_reads (h : HookState) :
  acknowledgements (disconnect_effects h) = []
  /\ frames_sent (disconnect_effects h) = []
  /\ schedule (disconnect_effects h) = [].
Proof.
  destruct (read_stops (sourcesRef h)) as (Sa & Sf & Ss).
  unfold disconnect_effects, acknowledgements, frames_sent in *.
  rewrite !filter_app, !schedule_app.
  destruct (inputAudioContextRef h), (outputAudioContextRef h),
    (sessionPromiseRef h);
    rewrite ?filter_app, ?schedule_app, ?Sa, ?Sf, ?Ss; repeat split.
Qed.

(** Only [disconnect()] releases anything. *)
Lemma step_releases (e : Event) (w : World) :
  not_disconnect e = true ->
  releases (performed (step decodeAudioData e w)) = [].
Proof.
  intros N.
  destruct e as [env| |c|c inputData|c currentTime m|source| |];
    try discriminate N.
  - destruct w as [[cd cg er i o nx so p [|]] n];
      [|destruct env as [|[] msg]]; reflexivity.
  - reflexivity.
  - rewrite step_onaudioprocess. cbn.
    destruct (activeRef (hook w)); reflexivity.
  - rewrite step_onmessage. unfold onmessage_outcome.
    destruct (toolCall_part_kinds c m) as [Kc Ka].
    pose proof (transcript_part_kind m) as Kt.
    destruct (toolCall_part c m) as [[ok calls] acks]. cbn in Kc, Ka |- *.
    assert (R : forall l,
               Forall (fun e => is_callback e = true
                                \/ is_ToolResponse e = true) l ->
               releases l = []).
    { intros l F. apply filter_drop.
      apply Forall_impl with (2 := F).
      intros [] [H|H]; try discriminate H; reflexivity. }
    assert (Rs : releases (calls ++ transcript_part m ++ acks) = []).
    { apply R. repeat (apply Forall_app; split);
        [ apply Forall_impl with (2 := Kc)
        | apply Forall_impl with (2 := Kt)
        | apply Forall_impl with (2 := Ka) ]; intros e He; tauto. }
    assert (Rt : releases (calls ++ acks) = []).
    { apply R. apply Forall_app; split;
        [ apply Forall_impl with (2 := Kc)
        | apply Forall_impl with (2 := Ka) ]; intros e He; tauto. }
    destruct ok; cbn; [|exact Rt].
    destruct (audio_part m) as [b|]; [|exact Rs].
    destruct (truthy b) as [data|]; [|exact Rs].
    destruct (outputAudioContextRef (hook w)) as [ctx|]; [|exact Rs].
    destruct (decodeAudioData data) as [buf|]; [|exact Rs].
    cbn [performed]. unfold releases in *.
    rewrite (filter_app is_release), Rs. reflexivity.
  - reflexivity.
  - reflexivity.
  - reflexivity.
Qed.

Lemma run_releases (es : list Event) :
  forallb not_disconnect es = true ->
  forall w, releases (snd (run decodeAudioData es w)) = [].
Proof.
  induction es as [|e rest IH]; intros N w.
  - reflexivity.
  - cbn [forallb] in N. apply andb_prop in N. destruct N as [Ne Nr].
    cbn [run].
    specialize (IH Nr (after (step decodeAudioData e w))).
    pose proof (step_releases e w Ne) as R.
    destruct (run decodeAudioData rest (after (step decodeAudioData e w)))
      as [w' l].
    cbn [snd] in *. unfold releases in *.
    rewrite filter_app, R, IH. reflexivity.
Qed.

(** Only [onmessage] schedules a source or moves the watermark. *)
Lemma step_time (e : Event) (w : World) :
  let o := step decodeAudioData e w in
  back_to_back (nextStartTimeRef (hook w)) (schedule (performed o))
  /\ (finish (nextStartTimeRef (hook w)) (schedule (performed o))
      <= nextStartTimeRef (hook (after o)))%Q.
Proof.
  cbv zeta.
  destruct e as [env| |c|c inputData|c currentTime m|source| |].
  - destruct w as [[cd cg er i o nx so p [|]] n];
      [|destruct env as [|[] msg]]; cbn; split; try exact I; apply Qle_refl.
  - rewrite step_disconnect. cbn [after performed hook].
    destruct (disconnect_effects_reads (hook w)) as (_ & _ & ->).
    split; [exact I|apply Qle_refl].
  - cbn. split; [exact I|apply Qle_refl].
  - rewrite step_onaudioprocess. cbn.
    destruct (activeRef (hook w)); cbn; split; try exact I; apply Qle_refl.
  - rewrite step_onmessage. apply onmessage_time.
  - cbn. split; [exact I|apply Qle_refl].
  - cbn. split; [exact I|apply Qle_refl].
  - cbn. split; [exact I|apply Qle_refl].
Qed.

Lemma run_time (es : list Event) :
  forall w,
    back_to_back (nextStartTimeRef (hook w))
      (schedule (snd (run decodeAudioData es w)))
    /\ (finish (nextStartTimeRef (hook w))
          (schedule (snd (run decodeAudioData es w)))
        <= nextStartTimeRef (hook (fst (run decodeAudioData es w))))%Q.
Proof.
  induction es as [|e rest IH]; intros w.
  - cbn. split; [exact I|apply Qle_refl].
  - cbn [run].
    destruct (step_time e w) as [B F].
    specialize (IH (after (step decodeAudioData e w))).
    destruct (run decodeAudioData rest (after (step decodeAudioData e w)))
      as [w' l].
    cbn [fst snd] in *. destruct IH as [B' F'].
    rewrite schedule_app. split.
    + apply back_to_back_app; [exact B|].
      apply back_to_back_earlier with (2 := B'). exact F.
    + rewrite finish_app.
      apply Qle_trans with (2 := F').
      apply finish_later. exact F.
Qed.



(** The acknowledgements of one turn. *)
Lemma step_acknowledgements (e : Event) (w : World) :
  Forall (fun i => has_args (snd i) = true) (invocations_of e) ->
  acknowledgements (performed (step decodeAudioData e w))
  = map (fun i => acknowledgement (fst i) (snd i))
      (filter declared_tool (invocations_of e)).
Proof.
  intros H.
  destruct e as [env| |c|c inputData|c currentTime m|source| |].
  - destruct w as [[cd cg er i o nx so p [|]] n];
      [|destruct env as [|[] msg]]; reflexivity.
  - rewrite step_disconnect. cbn [performed invocations_of filter map].
    apply (disconnect_effects_reads (hook w)).
  - reflexivity.
  - rewrite step_onaudioprocess. cbn.
    destruct (activeRef (hook w)); reflexivity.
  - rewrite step_onmessage.
    destruct (onmessage_reads c currentTime m w) as (-> & _).
    cbn [invocations_of] in *.
    unfold toolCall_part, functionCalls_of in *.
    destruct (LiveServerMessage.toolCall m) as [tc|]; [|reflexivity].
    destruct (LiveServerToolCall.functionCalls tc) as [fcs|]; [|reflexivity].
    assert (H' : Forall (fun fc => has_args fc = true) fcs).
    { clear -H. induction fcs as [|fc rest IH]; [constructor|].
      inversion H; subst. constructor; [assumption|apply IH; assumption]. }
    destruct (toolCall_loop_has_args c fcs H') as [_ ->].
    clear. induction fcs as [|fc rest IH]; [reflexivity|].
    cbn. unfold declared_tool at 1. cbn.
    destruct (is_performMathOperation fc); cbn; rewrite IH; reflexivity.
  - reflexivity.
  - reflexivity.
  - reflexivity.
Qed.


(** The callback invocation and the acknowledgement of an invocation the
    loop reaches: one that follows only invocations the loop gets past. *)
Lemma toolCall_loop_reaches (c : Closure) (before rest : list FunctionCall.t)
  (fc : FunctionCall.t) (args : Args.t) :
  Forall (fun fc => has_args fc = true) before ->
  is_performMathOperation fc = true ->
  FunctionCall.args fc = Some args ->
  In (CallOnOperation (opType (ToPropertyKey (Args.operation args)))
        (Number (Args.value args)))
    (snd (fst (toolCall_loop c (before ++ fc :: rest))))
  /\ In (acknowledgement c fc) (snd (toolCall_loop c (before ++ fc :: rest))).
Proof.
  intros H Hm Ha.
  induction H as [|fc' l Hfc' _ IH].
  - cbn. rewrite Hm, Ha.
    destruct (toolCall_loop c rest) as [[ok calls] acks].
    split; left; reflexivity.
  - cbn [app toolCall_loop]. unfold has_args in Hfc'.
    destruct (is_performMathOperation fc'); cbn in Hfc'; [|exact IH].
    destruct (FunctionCall.args fc') as [args'|]; [|discriminate Hfc'].
    destruct (toolCall_loop c (l ++ fc :: rest)) as [[ok calls] acks].
    cbn [fst snd] in *. destruct IH as [IH1 IH2].
    split; right; assumption.
Qed.

(** The loop passes over the calls made under another name. *)
Lemma toolCall_loop_declared_only (c : Closure) (fcs : list FunctionCall.t) :
  toolCall_loop c (filter is_performMathOperation fcs) = toolCall_loop c fcs.
Proof.
  induction fcs as [|fc rest IH]; [reflexivity|].
  cbn [filter toolCall_loop].
  destruct (is_performMathOperation fc) eqn:D; [|exact IH].
  cbn [toolCall_loop]. rewrite D, IH. reflexivity.
Qed.

(** Every acknowledgement the loop leaves is for the declared tool. *)
Lemma toolCall_loop_acknowledges (c : Closure) (fcs : list FunctionCall.t) :
  Forall (fun e =>
            exists id,
              e = SendToolResponse (sessionPromise c) id
                    (Some "performMathOperation") "ok, state updated")
    (snd (toolCall_loop c fcs)).
Proof.
  induction fcs as [|fc rest IH]; [constructor|].
  cbn [toolCall_loop].
  destruct (is_performMathOperation fc) eqn:D; [|exact IH].
  destruct (FunctionCall.args fc) as [args|]; [|constructor].
  destruct (toolCall_loop c rest) as [[ok calls] acks]. cbn [snd] in *.
  constructor; [|exact IH].
  exists (FunctionCall.id fc). unfold acknowledgement. f_equal.
  unfold is_performMathOperation in D.
  destruct (FunctionCall.name fc) as [n|]; [|discriminate D].
  apply String.eqb_eq in D. subst n. reflexivity.
Qed.

(** *** The claims about the session *)

(** C1, as the code has it.  Whatever the events of a session and the state
    it starts in, the acknowledgements sent are exactly those of the
    invocations of the declared tool [performMathOperation], one for each,
    in the order the invocations are received, each with its invocation's
    id and the result "ok, state updated", whatever the operand (also one
    [Number] turns into [NaN]) provided each such invocation carries an
    argument object.  An invocation under any other tool name is never
    acknowledged. *)
Theorem declared_invocations_acknowledged_once_in_order
  (es : list Event) :
  forall w,
    Forall (fun i => has_args (snd i) = true) (invocations es) ->
    acknowledgements (snd (run decodeAudioData es w))
    = map (fun i => acknowledgement (fst i) (snd i))
        (filter declared_tool (invocations es)).
Proof.
  induction es as [|e rest IH]; intros w H.
  - reflexivity.
  - cbn [invocations flat_map] in H |- *.
    apply Forall_app in H. destruct H as [He Hr].
    cbn [run].
    specialize (IH (after (step decodeAudioData e w)) Hr).
    destruct (run decodeAudioData rest (after (step decodeAudioData e w)))
      as [w' l].
    cbn [snd] in *. unfold acknowledgements in *.
    rewrite filter_app, filter_app, map_app.
    fold (acknowledgements (performed (step decodeAudioData e w))).
    rewrite (step_acknowledgements e w He), IH.
    reflexivity.
Qed.

(** C3.  Whatever the running total, a [DIVIDE] by 0 (or by -0) applied
    through the operation callback leaves it as it was; the invocation that
    carries it is handled without an exception: the callback is invoked
    with [(DIVIDE, 0)] and the acknowledgement "ok, state updated" is sent
    with the invocation's id; and delivering that turn's callbacks to the
    App leaves its total unchanged. *)
Theorem divide_by_zero_is_skipped_and_acknowledged :
  (forall env s,
      App.currentTotal (App.handleOperation env (Member DIVIDE) 0%float s)
      = App.currentTotal s
      /\ App.currentTotal
           (App.handleOperation env (Member DIVIDE) (-0)%float s)
         = App.currentTotal s)
  /\ (forall c currentTime w id n spelling,
         let fc :=
           {| FunctionCall.id := id;
              FunctionCall.args :=
                Some {| Args.operation :=
                          {| ToPropertyKey := "DIVIDE"; Number := n |};
                        Args.value :=
                          {| ToPropertyKey := spelling; Number := 0%float |} |};
              FunctionCall.name := Some "performMathOperation" |} in
         let o :=
           step decodeAudioData
             (OnMessage c currentTime (Scenario.toolCall_message [fc])) w in
         completion o = Returned
         /\ performed o
            = [ CallOnOperation (Member DIVIDE) 0%float;
                SendToolResponse (sessionPromise c) id
                  (Some "performMathOperation") "ok, state updated" ]
         /\ forall env k s,
             App.currentTotal (Page.deliver env k (performed o) s)
             = App.currentTotal s).
Proof.
  split.
  - intros env s. split; reflexivity.
  - intros c currentTime w id n spelling. cbv zeta.
    rewrite step_onmessage.
    destruct w as [[cd cg er i o nx so p ac] k0]; cbn.
    repeat split.
Qed.



(** C6, as the code has it.  An invocation of the declared tool
    [performMathOperation] that carries an argument object is reached by
    the loop when every invocation of that tool before it in its message
    carries one too.  For such an invocation, an operation name that is
    neither one of the declared ADD, SUBTRACT, MULTIPLY, DIVIDE, RESET nor
    the name of a property inherited from [Object.prototype] is mapped to
    [UNKNOWN]; the operation callback is invoked with [UNKNOWN] and the
    coerced operand, and the acknowledgement is sent, whatever else the
    message carries.  A function call under any other name is passed over:
    the handler does exactly what it does on the message without such
    calls, and no acknowledgement is sent for it. *)
Theorem undeclared_operation_becomes_unknown :
  (forall c currentTime m w before fc rest args,
      functionCalls_of m = before ++ fc :: rest ->
      Forall (fun fc => has_args fc = true) before ->
      is_performMathOperation fc = true ->
      FunctionCall.args fc = Some args ->
      ~ In (ToPropertyKey (Args.operation args)) declared_operations ->
      ~ In (ToPropertyKey (Args.operation args)) Object_prototype_keys ->
      let o := step decodeAudioData (OnMessage c currentTime m) w in
      opType (ToPropertyKey (Args.operation args)) = Member UNKNOWN
      /\ In (CallOnOperation (Member UNKNOWN) (Number (Args.value args)))
           (performed o)
      /\ In (acknowledgement c fc) (performed o))
  /\ (forall c currentTime m w,
         step decodeAudioData (OnMessage c currentTime m) w
         = step decodeAudioData (OnMessage c currentTime (declared_only m)) w)
  /\ (forall c currentTime m w fc,
         is_performMathOperation fc = false ->
         ~ In (acknowledgement c fc)
             (performed (step decodeAudioData (OnMessage c currentTime m) w))).
Proof.
  split; [|split].
  - intros c currentTime m w before fc rest args E H Hm Ha Hd Hp. cbv zeta.
    pose proof (opType_unknown _ Hd Hp) as U.
    split; [exact U|].
    rewrite step_onmessage.
    destruct (onmessage_reads c currentTime m w) as (Ra & _ & Rc).
    unfold functionCalls_of, toolCall_part in *.
    destruct (LiveServerMessage.toolCall m) as [tc|];
      [|destruct before; discriminate E].
    destruct (LiveServerToolCall.functionCalls tc) as [fcs|];
      [|destruct before; discriminate E].
    subst fcs.
    destruct (toolCall_loop_reaches c before rest fc args H Hm Ha)
      as [Hcall Hack].
    rewrite U in Hcall.
    split.
    + assert (I : In (CallOnOperation (Member UNKNOWN)
                        (Number (Args.value args)))
                    (callbacks
                       (performed
                          (onmessage_outcome decodeAudioData c currentTime
                             m w)))).
      { rewrite Rc.
        destruct (fst (fst (toolCall_loop c (before ++ fc :: rest))));
          [apply in_or_app; left|]; exact Hcall. }
      apply filter_In in I. apply I.
    + assert (I : In (acknowledgement c fc)
                    (acknowledgements
                       (performed
                          (onmessage_outcome decodeAudioData c currentTime
                             m w)))).
      { rewrite Ra. exact Hack. }
      apply filter_In in I. apply I.
  - intros c currentTime m w. rewrite !step_onmessage.
    unfold onmessage_outcome.
    assert (T : toolCall_part c (declared_only m) = toolCall_part c m).
    { unfold toolCall_part, declared_only.
      cbn [LiveServerMessage.toolCall].
      destruct (LiveServerMessage.toolCall m) as [tc|]; [|reflexivity].
      cbn [LiveServerToolCall.functionCalls].
      destruct (LiveServerToolCall.functionCalls tc) as [fcs|];
        [|reflexivity].
      apply toolCall_loop_declared_only. }
    rewrite T. reflexivity.
  - intros c currentTime m w fc D I. rewrite step_onmessage in I.
    assert (A : In (acknowledgement c fc)
                  (acknowledgements
                     (performed
                        (onmessage_outcome decodeAudioData c currentTime
                           m w)))).
    { apply filter_In. split; [exact I|reflexivity]. }
    destruct (onmessage_reads c currentTime m w) as (Ra & _).
    rewrite Ra in A. unfold toolCall_part in A.
    destruct (LiveServerMessage.toolCall m) as [tc|]; [|exact A].
    destruct (LiveServerToolCall.functionCalls tc) as [fcs|]; [|exact A].
    pose proof (toolCall_loop_acknowledges c fcs) as F.
    apply (proj1 (Forall_forall _ _) F) in A. destruct A as [id A].
    unfold acknowledgement in A. injection A as _ N.
    unfold is_performMathOperation in D. rewrite N in D.
    discriminate D.
Qed.

End Facts.

(** *** The claims at concrete inputs *)

Import Scenario.

(** C1 fails as stated.  A function call received while the session is
    open under another tool name (here [otherTool]) is never acknowledged:
    the acknowledgement sits behind the test of [fc.name].  And of the three
    invocations of [bare_message] only the first is acknowledged: reading
    [args.operation] of the second, which carries no [args], throws and ends
    the loop. *)
Lemma some_invocations_get_no_acknowledgement :
  isConnected (hook opened) = true
  /\ invocations [OnMessage live 0 foreign_message] = [(live, foreign_call)]
  /\ acknowledgements
       (snd (run decode_pcm [OnMessage live 0 foreign_message] opened))
     = []
  /\ List.length (invocations [OnMessage live 0 bare_message]) = 3%nat
  /\ acknowledgements
       (snd (run decode_pcm [OnMessage live 0 bare_message] opened))
     = [ SendToolResponse 2 (Some "a") (Some "performMathOperation")
           "ok, state updated" ].
Proof. repeat split. Qed.



(** C6 fails as stated.  An inbound invocation whose operation name is
    outside the declared set, made under another tool name, reaches no
    callback and gets no acknowledgement: the mapping sits behind the test
    of [fc.name].  And under the declared tool the name ["toString"], as
    every name inherited from [Object.prototype], is looked up
    successfully, so the fallback is not taken: the callback receives the
    inherited value, not [UNKNOWN].  And the invocation of [slip_message]
    that names SQUARE follows one without [args]: reading [args.operation]
    of that one throws, so the turn ends with no callback and no
    acknowledgement at all. *)
Lemma some_undeclared_operations_are_not_unknown :
  functionCalls_of stray_message = [stray_call]
  /\ ~ In "SQUARE" declared_operations
  /\ performed (step decode_pcm (OnMessage live 0 stray_message) opened) = []
  /\ ~ In "toString" declared_operations
  /\ performed (step decode_pcm (OnMessage live 0 toString_message) opened)
     = [ CallOnOperation (Inherited "toString") 5%float;
         SendToolResponse 2 (Some "t") (Some "performMathOperation")
           "ok, state updated" ]
  /\ Forall (fun key => opType key = Inherited key) Object_prototype_keys
  /\ step decode_pcm (OnMessage live 0 slip_message) opened
     = {| after := opened; performed := []; completion := Threw |}.
Proof.
  repeat split.
  - cbn. intros [H|[H|[H|[H|[H|[]]]]]]; discriminate H.
  - cbn. intros [H|[H|[H|[H|[H|[]]]]]]; discriminate H.
  - repeat constructor.
Qed.

(** The declared invocations of [mixed_message] and of [add_fifty] are
    acknowledged, in order; the undeclared one in between is not. *)
Lemma declared_invocations_acknowledged_witness :
  acknowledgements
    (snd (run decode_pcm
            [ OnMessage live 0 mixed_message;
              OnMessage live (1 # 10) add_fifty ]
            opened))
  = [ SendToolResponse 2 (Some "a") (Some "performMathOperation")
        "ok, state updated";
      SendToolResponse 2 (Some "b") (Some "performMathOperation")
        "ok, state updated";
      SendToolResponse 2 (Some "call-2") (Some "performMathOperation")
        "ok, state updated" ].
Proof.
  refine (declared_invocations_acknowledged_once_in_order decode_pcm
            [ OnMessage live 0 mixed_message;
              OnMessage live (1 # 10) add_fifty ]
            opened _).
  repeat constructor.
Defined.



(** The invocation ["b"] of [mixed_message] names the operation SQUARE. *)
Lemma undeclared_operation_becomes_unknown_witness :
  opType "SQUARE" = Member UNKNOWN
  /\ In (CallOnOperation (Member UNKNOWN) 3%float)
       (performed (step decode_pcm (OnMessage live 0 mixed_message) opened))
  /\ In (SendToolResponse 2 (Some "b") (Some "performMathOperation")
           "ok, state updated")
       (performed (step decode_pcm (OnMessage live 0 mixed_message) opened)).
Proof.
  refine (proj1 (undeclared_operation_becomes_unknown decode_pcm)
            live 0 mixed_message opened
            [ performMathOperation "a" (text "ADD") (text "fifty");
              foreign_call ]
            (performMathOperation "b" (text "SQUARE") (num "3" 3%float))
            []
            {| Args.operation := text "SQUARE";
               Args.value := num "3" 3%float |}
            eq_refl _ eq_refl eq_refl _ _).
  - repeat constructor.
  - simpl. intros [H|[H|[H|[H|[H|[]]]]]]; discriminate H.
  - simpl. intros H.
    repeat (destruct H as [H|H]; [discriminate H|]). destruct H.
Defined.

(** On the opened session of the scenario [connect()] does nothing. *)
Lemma connect_while_active_is_noop_witness :
  activeRef (hook opened) = true
  /\ step decode_pcm (Connect Succeeds) opened
     = {| after := opened; performed := []; completion := Returned |}.
Proof.
  split.
  - reflexivity.
  - exact (proj1 (connect_while_active_is_noop decode_pcm Succeeds)
             opened eq_refl).
Defined.

(** The first end-to-end scenario of the specification: [ADD 50], then
    [DIVIDE 0]; each is dispatched and acknowledged, and the App's total
    ends at 50. *)
Example add_50_then_divide_by_0_end_to_end :
  snd (run decode_pcm
         [ OnMessage live 0
             (toolCall_message
                [performMathOperation "1" (text "ADD") (num "50" 50%float)]);
           OnMessage live 0
             (toolCall_message
                [performMathOperation "2" (text "DIVIDE") (num "0" 0%float)]) ]
         opened)
  = [ CallOnOperation (Member ADD) 50%float;
      SendToolResponse 2 (Some "1") (Some "performMathOperation")
        "ok, state updated";
      CallOnOperation (Member DIVIDE) 0%float;
      SendToolResponse 2 (Some "2") (Some "performMathOperation")
        "ok, state updated" ]
  /\ App.currentTotal
       (Page.deliver env0 0
          (snd (run decode_pcm
                  [ OnMessage live 0
                      (toolCall_message
                         [performMathOperation "1" (text "ADD")
                            (num "50" 50%float)]);
                    OnMessage live 0
                      (toolCall_message
                         [performMathOperation "2" (text "DIVIDE")
                            (num "0" 0%float)]) ]
                  opened))
          App.initial)
     = 50%float.
Proof. split; reflexivity. Qed.

End Session.

(** ** The display components *)

Module Display.

Import App Page Reading.

(** The total and the history after a sequence of calls depend on the
    state they start from only through its total and history. *)
Lemma apply_calls_agree (calls : list Call) :
  forall s1 s2,
    currentTotal s1 = currentTotal s2 ->
    history s1 = history s2 ->
    currentTotal (apply_calls calls s1) = currentTotal (apply_calls calls s2)
    /\ history (apply_calls calls s1) = history (apply_calls calls s2).
Proof.
  induction calls as [|c rest IH]; intros s1 s2 Ht Hh.
  - split; assumption.
  - cbn. apply IH; unfold apply_call, handleOperation;
      destruct (strict_eq (call_op c) RESET); cbn; congruence.
Qed.

Lemma apply_calls_lastTranscript (calls : list Call) :
  forall s, lastTranscript (apply_calls calls s) = lastTranscript s.
Proof.
  induction calls as [|c rest IH]; intros s; [reflexivity|].
  cbn. rewrite IH. unfold apply_call, handleOperation.
  destruct (strict_eq (call_op c) RESET); reflexivity.
Qed.

Lemma apply_calls_app (l1 l2 : list Call) (s : State) :
  apply_calls (l1 ++ l2) s = apply_calls l2 (apply_calls l1 s).
Proof. apply fold_left_app. Qed.

Lemma since_reset_none (calls : list Call) :
  existsb (fun c => strict_eq (call_op c) RESET) calls = false ->
  since_reset calls = calls.
Proof.
  destruct calls as [|c rest]; [reflexivity|].
  cbn. intros E. apply orb_false_elim in E. destruct E as [Ec Er].
  rewrite Er, Ec. reflexivity.
Qed.

Lemma apply_calls_history_no_reset (calls : list Call) :
  existsb (fun c => strict_eq (call_op c) RESET) calls = false ->
  forall s, history (apply_calls calls s) = history s ++ map item_of calls.
Proof.
  induction calls as [|c rest IH]; intros E s.
  - cbn. rewrite app_nil_r. reflexivity.
  - cbn in E. apply orb_false_elim in E. destruct E as [Ec Er].
    cbn. rewrite (IH Er). unfold apply_call, handleOperation.
    rewrite Ec. cbn. rewrite <- app_assoc. reflexivity.
Qed.

Lemma since_reset_has_none (calls : list Call) :
  existsb (fun c => strict_eq (call_op c) RESET) (since_reset calls) = false.
Proof.
  induction calls as [|c rest IH]; [reflexivity|].
  cbn [since_reset].
  destruct (existsb (fun c' => strict_eq (call_op c') RESET) rest) eqn:Er;
    [exact IH|].
  destruct (strict_eq (call_op c) RESET) eqn:Ec; [exact Er|].
  cbn. rewrite Ec, Er. reflexivity.
Qed.

Lemma apply_calls_since_reset (calls : list Call) :
  forall s,
    existsb (fun c => strict_eq (call_op c) RESET) calls = true ->
    currentTotal (apply_calls calls s)
    = currentTotal (apply_calls (since_reset calls) initial)
    /\ history (apply_calls calls s)
       = history (apply_calls (since_reset calls) initial).
Proof.
  induction calls as [|c rest IH]; intros s E; [discriminate E|].
  cbn [since_reset].
  destruct (existsb (fun c' => strict_eq (call_op c') RESET) rest) eqn:Er.
  - cbn. apply IH. reflexivity.
  - cbn in E. rewrite Er, orb_false_r in E. rewrite E.
    cbn. apply apply_calls_agree;
      unfold apply_call, handleOperation; rewrite E; reflexivity.
Qed.

Lemma history_since_reset (calls : list Call) :
  history (apply_calls calls initial) = map item_of (since_reset calls).
Proof.
  destruct (existsb (fun c => strict_eq (call_op c) RESET) calls) eqn:E.
  - destruct (apply_calls_since_reset calls initial E) as [_ ->].
    rewrite (apply_calls_history_no_reset _ (since_reset_has_none calls)).
    reflexivity.
  - rewrite (apply_calls_history_no_reset _ E).
    rewrite (since_reset_none _ E). reflexivity.
Qed.

(** X1.  A [RESET] forgets everything before it: after a sequence of calls
    that holds one, from any state, the total and the history are those of
    applying only the calls after the last [RESET] to the initial state.
    The history the App keeps is exactly the items of the calls since the
    last [RESET], in order, and the last transcript is never touched. *)
Theorem reset_forgets_the_past :
  (forall calls s,
      existsb (fun c => strict_eq (call_op c) RESET) calls = true ->
      currentTotal (apply_calls calls s)
      = currentTotal (apply_calls (since_reset calls) initial)
      /\ history (apply_calls calls s)
         = history (apply_calls (since_reset calls) initial))
  /\ (forall calls,
         history (apply_calls calls initial) = map item_of (since_reset calls))
  /\ (forall calls s,
         lastTranscript (apply_calls calls s) = lastTranscript s).
Proof.
  split; [|split].
  - intros calls s E. apply apply_calls_since_reset, E.
  - apply history_since_reset.
  - intros calls s. apply apply_calls_lastTranscript.
Qed.

(** A sequence with a [RESET] in the middle, on a state that is not the
    initial one. *)
Lemma reset_forgets_the_past_witness :
  currentTotal
    (apply_calls
       [ {| call_env := Scenario.env0 0; call_op := Member ADD;
            call_value := 7%float |};
         {| call_env := Scenario.env0 1; call_op := Member RESET;
            call_value := 0%float |};
         {| call_env := Scenario.env0 2; call_op := Member ADD;
            call_value := 5%float |} ]
       {| currentTotal := 3%float; history := []; lastTranscript := None |})
  = currentTotal
      (apply_calls
         [ {| call_env := Scenario.env0 2; call_op := Member ADD;
              call_value := 5%float |} ]
         initial)
  /\ history
       (apply_calls
          [ {| call_env := Scenario.env0 0; call_op := Member ADD;
               call_value := 7%float |};
            {| call_env := Scenario.env0 1; call_op := Member RESET;
               call_value := 0%float |};
            {| call_env := Scenario.env0 2; call_op := Member ADD;
               call_value := 5%float |} ]
          {| currentTotal := 3%float; history := []; lastTranscript := None |})
     = history
         (apply_calls
            [ {| call_env := Scenario.env0 2; call_op := Member ADD;
                 call_value := 5%float |} ]
            initial).
Proof.
  exact (proj1 reset_forgets_the_past
           [ {| call_env := Scenario.env0 0; call_op := Member ADD;
                call_value := 7%float |};
             {| call_env := Scenario.env0 1; call_op := Member RESET;
                call_value := 0%float |};
             {| call_env := Scenario.env0 2; call_op := Member ADD;
                call_value := 5%float |} ]
           {| currentTotal := 3%float; history := []; lastTranscript := None |}
           eq_refl).
Defined.

Lemma forEach_totals (history : list HistoryItem.t) :
  forall idx runningTotal,
    map Visualizer.total (Visualizer.forEach idx runningTotal history)
    = map (fun n => fold_left Visualizer.step (firstn n history) runningTotal)
        (seq 1 (List.length history)).
Proof.
  induction history as [|h rest IH]; intros idx runningTotal; [reflexivity|].
  cbn [Visualizer.forEach map List.length seq Visualizer.total firstn fold_left].
  f_equal. rewrite IH.
  rewrite <- (seq_shift (List.length rest) 1), map_map. reflexivity.
Qed.

Lemma forEach_names (history : list HistoryItem.t) :
  forall idx runningTotal,
    map Visualizer.name (Visualizer.forEach idx runningTotal history)
    = map Visualizer.decimal (seq (idx + 1) (List.length history)).
Proof.
  induction history as [|h rest IH]; intros idx runningTotal; [reflexivity|].
  cbn [Visualizer.forEach map List.length seq Visualizer.name].
  f_equal. rewrite IH. rewrite !Nat.add_1_r. reflexivity.
Qed.

Lemma forEach_prefix (history : list HistoryItem.t) (item : HistoryItem.t) :
  forall idx runningTotal,
    firstn (List.length history)
      (Visualizer.forEach idx runningTotal (history ++ [item]))
    = Visualizer.forEach idx runningTotal history.
Proof.
  induction history as [|h rest IH]; intros idx runningTotal; [reflexivity|].
  cbn [app Visualizer.forEach List.length firstn]. f_equal. apply IH.
Qed.

(** X2.  The chart has one point more than the history has items: the point
    "Start" with total 0, then for the [n]-th item the point named [n]
    whose total is the running total over the first [n] items.  So a point
    depends only on the items up to it: appending an item leaves the
    earlier points as they were. *)
Theorem chart_points_are_the_running_totals :
  (forall history,
      map Visualizer.total (Visualizer.data history)
      = map (fun n => fold_left Visualizer.step (firstn n history) 0%float)
          (seq 0 (S (List.length history)))
      /\ map Visualizer.name (Visualizer.data history)
         = "Start" :: map Visualizer.decimal (seq 1 (List.length history)))
  /\ (forall history item,
         firstn (S (List.length history))
           (Visualizer.data (history ++ [item]))
         = Visualizer.data history).
Proof.
  split.
  - intros history. unfold Visualizer.data. cbn [map seq firstn fold_left].
    rewrite forEach_totals, forEach_names. split; reflexivity.
  - intros history item. unfold Visualizer.data. cbn [firstn]. f_equal.
    apply forEach_prefix.
Qed.

(** The items that count in the statistics: all but [RESET] and
    [UNKNOWN]. *)
Lemma values_length (history : list HistoryItem.t) :
  List.length (StatsPanel.values history)
  = List.length (filter StatsPanel.counted history).
Proof. unfold StatsPanel.values. apply length_map. Qed.

Lemma stats_count (history : list HistoryItem.t) :
  StatsPanel.count (StatsPanel.stats history)
  = List.length (filter StatsPanel.counted history).
Proof.
  rewrite <- values_length. unfold StatsPanel.stats.
  destruct (StatsPanel.values history); reflexivity.
Qed.

Lemma counted_without_reset (calls : list Call) :
  existsb (fun c => strict_eq (call_op c) RESET) calls = false ->
  List.length (filter StatsPanel.counted (map item_of calls))
  = List.length
      (filter (fun c => negb (strict_eq (call_op c) UNKNOWN)) calls).
Proof.
  induction calls as [|c rest IH]; intros E; [reflexivity|].
  cbn in E. apply orb_false_elim in E. destruct E as [Ec Er].
  cbn [map filter]. unfold StatsPanel.counted at 1.
  cbn [item_of HistoryItem.operation]. rewrite Ec. cbn [negb andb].
  destruct (negb (strict_eq (call_op c) UNKNOWN)); cbn [List.length];
    rewrite (IH Er); reflexivity.
Qed.

(** X3.  The statistics count the recorded items whose operation is
    neither [RESET] nor [UNKNOWN] (an item recorded with a value the enum
    object inherits counts too); when there is none, all five figures are 0.
    On the history the App keeps that is: the count is the number of calls
    since the last [RESET] that are not [UNKNOWN], and right after a
    [RESET] every figure is 0. *)
Theorem statistics_count_the_known_operations :
  (forall history,
      StatsPanel.count (StatsPanel.stats history)
      = List.length (filter StatsPanel.counted history))
  /\ (forall history,
         StatsPanel.count (StatsPanel.stats history) = 0%nat ->
         StatsPanel.stats history
         = {| StatsPanel.min := 0; StatsPanel.max := 0; StatsPanel.avg := 0;
              StatsPanel.median := 0; StatsPanel.count := 0 |})
  /\ (forall calls,
         StatsPanel.count
           (StatsPanel.stats (history (apply_calls calls initial)))
         = List.length
             (filter (fun c => negb (strict_eq (call_op c) UNKNOWN))
                (since_reset calls)))
  /\ (forall calls env value s,
         StatsPanel.stats
           (history
              (apply_calls
                 (calls ++ [ {| call_env := env; call_op := Member RESET;
                               call_value := value |} ])
                 s))
         = {| StatsPanel.min := 0; StatsPanel.max := 0; StatsPanel.avg := 0;
              StatsPanel.median := 0; StatsPanel.count := 0 |}).
Proof.
  split; [exact stats_count|]. split; [|split].
  - intros history. unfold StatsPanel.stats.
    destruct (StatsPanel.values history); [reflexivity|discriminate].
  - intros calls. rewrite stats_count, history_since_reset.
    apply counted_without_reset, since_reset_has_none.
  - intros calls env value s. rewrite apply_calls_app. reflexivity.
Qed.

(** A history with one item, recorded as [UNKNOWN]. *)
Lemma statistics_count_the_known_operations_witness :
  StatsPanel.stats
    [ {| HistoryItem.id := "1"; HistoryItem.value := 9%float;
         HistoryItem.operation := Member UNKNOWN;
         HistoryItem.timestamp := 0%float |} ]
  = {| StatsPanel.min := 0; StatsPanel.max := 0; StatsPanel.avg := 0;
       StatsPanel.median := 0; StatsPanel.count := 0 |}.
Proof.
  exact (proj1 (proj2 statistics_count_the_known_operations)
           [ {| HistoryItem.id := "1"; HistoryItem.value := 9%float;
                HistoryItem.operation := Member UNKNOWN;
                HistoryItem.timestamp := 0%float |} ]
           eq_refl).
Defined.

(** Statistics of a small history, evaluated: 5, -3 (subtracted) and 2. *)
Example statistics_of_three_values :
  StatsPanel.stats
    (history
       (apply_calls
          [ {| call_env := Scenario.env0 0; call_op := Member ADD;
               call_value := 5%float |};
            {| call_env := Scenario.env0 1; call_op := Member SUBTRACT;
               call_value := 3%float |};
            {| call_env := Scenario.env0 2; call_op := Member UNKNOWN;
               call_value := 100%float |};
            {| call_env := Scenario.env0 3; call_op := Member MULTIPLY;
               call_value := 2%float |} ]
          initial))
  = {| StatsPanel.min := (-3)%float; StatsPanel.max := 5%float;
       StatsPanel.avg := (4 / 3)%float; StatsPanel.median := 2%float;
       StatsPanel.count := 3 |}.
Proof. reflexivity. Qed.

Lemma insert_permutation (x : float) (sorted : list float) :
  Permutation (StatsPanel.insert x sorted) (x :: sorted).
Proof.
  induction sorted as [|y rest IH]; cbn; [apply Permutation_refl|].
  destruct (0 <? y - x)%float; [apply Permutation_refl|].
  apply Permutation_trans with (y :: x :: rest);
    [apply perm_skip, IH|apply perm_swap].
Qed.

Lemma sort_permutation (l : list float) :
  Permutation (StatsPanel.sort l) l.
Proof.
  unfold StatsPanel.sort.
  assert (G : forall acc,
             Permutation
               (fold_left (fun sorted x => StatsPanel.insert x sorted) l acc)
               (rev l ++ acc)).
  { induction l as [|x rest IH]; intros acc; cbn; [apply Permutation_refl|].
    apply Permutation_trans with (1 := IH _).
    rewrite <- app_assoc. cbn.
    apply Permutation_app_head, insert_permutation. }
  apply Permutation_trans with (1 := G []).
  rewrite app_nil_r. apply Permutation_sym, Permutation_rev.
Qed.

(** X4.  Sorting keeps the counted values: whatever the comparator answers
    (also on NaN), the sorted array is a rearrangement of the values.  So
    when an odd number of values counts, the median shown is one of
    them. *)
Theorem median_of_an_odd_count_is_a_value (history : list HistoryItem.t) :
  Nat.modulo (List.length (StatsPanel.values history)) 2 = 1%nat ->
  Permutation (StatsPanel.sort (StatsPanel.values history))
    (StatsPanel.values history)
  /\ In (StatsPanel.median (StatsPanel.stats history))
       (StatsPanel.values history).
Proof.
  intros Odd.
  pose proof (sort_permutation (StatsPanel.values history)) as P.
  split; [exact P|].
  unfold StatsPanel.stats.
  destruct (StatsPanel.values history) as [|v vs] eqn:E; [discriminate Odd|].
  cbn [StatsPanel.median].
  rewrite (Permutation_length P), Odd. cbn [Nat.eqb negb].
  apply (Permutation_in _ P).
  unfold StatsPanel.at_index. apply nth_In.
  rewrite (Permutation_length P).
  apply Nat.div_lt; [cbn; lia|lia].
Qed.

(** Three counted values: the median is the middle one. *)
Lemma median_of_an_odd_count_is_a_value_witness :
  In (StatsPanel.median
        (StatsPanel.stats
           (map item_of
              [ {| call_env := Scenario.env0 0; call_op := Member ADD;
                   call_value := 5%float |};
                {| call_env := Scenario.env0 1; call_op := Member SUBTRACT;
                   call_value := 3%float |};
                {| call_env := Scenario.env0 2; call_op := Member MULTIPLY;
                   call_value := 2%float |} ])))
    [5%float; (-3)%float; 2%float].
Proof.
  exact (proj2 (median_of_an_odd_count_is_a_value
                  (map item_of
                     [ {| call_env := Scenario.env0 0; call_op := Member ADD;
                          call_value := 5%float |};
                       {| call_env := Scenario.env0 1;
                          call_op := Member SUBTRACT;
                          call_value := 3%float |};
                       {| call_env := Scenario.env0 2;
                          call_op := Member MULTIPLY;
                          call_value := 2%float |} ])
                  eq_refl)).
Defined.

Lemma symbol_and_badge (op : OpValue) :
  HistoryTape.getOpSymbol op = "?" <-> HistoryTape.badge op = [].
Proof.
  destruct op as [[]|k]; cbn; split; intros H;
    try discriminate H; reflexivity.
Qed.

(** X5.  The tape shows the placeholder exactly when the history is empty;
    otherwise it shows one row per item, in order and keyed by the item's
    id, whose badge has no colour exactly when its symbol is "?" (an
    [UNKNOWN] operation or a value outside the enum).  On the history the
    App keeps no row ever shows the reset symbol: a [RESET] empties the
    tape instead of being listed. *)
Theorem tape_lists_the_history :
  (forall history,
      match HistoryTape.render history with
      | None => history = []
      | Some rows =>
          history <> []
          /\ map HistoryTape.item rows = history
          /\ map HistoryTape.key rows = map HistoryItem.id history
          /\ Forall (fun r => HistoryTape.symbol r = "?"
                              <-> HistoryTape.classes r = []) rows
      end)
  /\ (forall calls,
         match HistoryTape.render (history (apply_calls calls initial)) with
         | None => True
         | Some rows =>
             Forall (fun r => HistoryTape.symbol r <> "↺") rows
         end).
Proof.
  split.
  - intros history. unfold HistoryTape.render.
    destruct history as [|h rest]; [reflexivity|].
    split; [discriminate|]. rewrite !map_map. cbn [HistoryTape.item HistoryTape.key].
    split; [apply map_id|]. split; [reflexivity|].
    apply Forall_map, Forall_forall. intros x _. apply symbol_and_badge.
  - intros calls.
    pose proof (Accumulator.apply_calls_reset_free calls initial
                  (Forall_nil _)) as F.
    unfold reset_free in F. unfold HistoryTape.render.
    destruct (history (apply_calls calls initial)) as [|h rest]; [exact I|].
    apply Forall_map. apply Forall_impl with (2 := F).
    intros x Hx. cbn [HistoryTape.symbol].
    destruct (HistoryItem.operation x) as [[]|k]; cbn;
      try discriminate. congruence.
Qed.

Lemma last_cons_default {A : Type} (l : list A) (x d : A) :
  last (x :: l) d = last l x.
Proof.
  revert x d. induction l as [|y rest IH]; intros x d; [reflexivity|].
  change (last (x :: y :: rest) d) with (last (y :: rest) d).
  rewrite (IH y d), (IH y x). reflexivity.
Qed.

Lemma deliver_reads (env : nat -> Env) (l : list LiveMath.Effect) :
  forall n s,
    currentTotal (deliver env n l s)
    = currentTotal (apply_calls (calls_from env n (operations l)) s)
    /\ history (deliver env n l s)
       = history (apply_calls (calls_from env n (operations l)) s)
    /\ lastTranscript (deliver env n l s)
       = last (transcripts l) (lastTranscript s).
Proof.
  induction l as [|e rest IH]; intros n s; [repeat split|].
  destruct e; cbn [deliver operations transcripts calls_from]; try apply IH.
  - destruct (IH (S n) (handleOperation (env n) op value s)) as (T & H & L).
    rewrite T, H, L. repeat split.
    unfold handleOperation. destruct (strict_eq op RESET); reflexivity.
  - destruct (IH n (handleTranscript text s)) as (T & H & L).
    rewrite T, H, L, last_cons_default.
    destruct (apply_calls_agree (calls_from env n (operations rest))
                (handleTranscript text s) s eq_refl eq_refl) as [-> ->].
    repeat split.
Qed.

(** X6.  The callbacks of a session, delivered to the App: the total and
    the history are those of applying the operations handed to
    [onOperation], in order; the transcripts change nothing but the last
    transcript, which ends as the latest one handed to
    [onTranscriptUpdate]; every other effect of the hook leaves the App
    alone.  So after any sequence of session events the chart's last point
    is the total shown and the history holds no [RESET]. *)
Theorem session_drives_the_accumulator :
  (forall env n l s,
      currentTotal (deliver env n l s)
      = currentTotal (apply_calls (calls_from env n (operations l)) s)
      /\ history (deliver env n l s)
         = history (apply_calls (calls_from env n (operations l)) s)
      /\ lastTranscript (deliver env n l s)
         = last (transcripts l) (lastTranscript s))
  /\ (forall decodeAudioData es env,
         let s :=
           deliver env 0 (snd (LiveMath.run decodeAudioData es LiveMath.initial))
             initial in
         Visualizer.last_total (history s) = currentTotal s
         /\ reset_free s).
Proof.
  split; [intros env n l s; apply deliver_reads|].
  intros decodeAudioData es env. cbv zeta.
  set (l := snd (LiveMath.run decodeAudioData es LiveMath.initial)).
  destruct (deliver_reads env l 0 initial) as (T & H & _).
  pose proof (Accumulator.apply_calls_in_step
                (calls_from env 0 (operations l)) initial eq_refl) as S.
  pose proof (Accumulator.apply_calls_reset_free
                (calls_from env 0 (operations l)) initial (Forall_nil _)) as R.
  unfold in_step, reset_free in *.
  rewrite Accumulator.last_total_fold, T, H. split; [symmetry; exact S|exact R].
Qed.

End Display.

(** ** The life of a session *)

Module Lifecycle.

Import LiveMath Reading Session.

Section Facts.

Variable decodeAudioData : string -> option AudioBuffer.

(** A message touches the watermark, the active set and nothing else of the
    hook's state. *)
Lemma onmessage_frame (c : Closure) (currentTime : Q)
  (m : LiveServerMessage.t) (w : World) :
  let h' := hook (after (step decodeAudioData (OnMessage c currentTime m) w)) in
  isConnected h' = isConnected (hook w)
  /\ isConnecting h' = isConnecting (hook w)
  /\ error h' = error (hook w)
  /\ inputAudioContextRef h' = inputAudioContextRef (hook w)
  /\ outputAudioContextRef h' = outputAudioContextRef (hook w)
  /\ sessionPromiseRef h' = sessionPromiseRef (hook w)
  /\ activeRef h' = activeRef (hook w).
Proof.
  cbv zeta. rewrite step_onmessage. unfold onmessage_outcome.
  destruct w as [[cd cg er i o nx so p ac] n].
  destruct (toolCall_part c m) as [[[|] calls] acks]; cbn;
    [|repeat split].
  destruct (audio_part m) as [b|]; [|repeat split].
  destruct (truthy b) as [data|]; [|repeat split].
  destruct o as [ctx|]; [|repeat split].
  destruct (decodeAudioData data); repeat split.
Qed.

(** Between [connect()] and [disconnect()] the refs to the audio contexts
    and to the session are not touched. *)
Lemma step_keeps_refs (e : Event) (w : World) :
  in_session e = true ->
  let h' := hook (after (step decodeAudioData e w)) in
  inputAudioContextRef h' = inputAudioContextRef (hook w)
  /\ outputAudioContextRef h' = outputAudioContextRef (hook w)
  /\ sessionPromiseRef h' = sessionPromiseRef (hook w).
Proof.
  intros S. cbv zeta.
  destruct e as [env| |c|c inputData|c currentTime m|source| |];
    try discriminate S; try (repeat split; reflexivity).
  - rewrite step_onaudioprocess. repeat split.
  - destruct (onmessage_frame c currentTime m w) as (_ & _ & _ & I & O & P & _).
    repeat split; assumption.
Qed.

Lemma run_keeps_refs (es : list Event) :
  forallb in_session es = true ->
  forall w,
    let h' := hook (fst (run decodeAudioData es w)) in
    inputAudioContextRef h' = inputAudioContextRef (hook w)
    /\ outputAudioContextRef h' = outputAudioContextRef (hook w)
    /\ sessionPromiseRef h' = sessionPromiseRef (hook w).
Proof.
  induction es as [|e rest IH]; intros S w; [repeat split|].
  cbn [forallb] in S. apply andb_prop in S. destruct S as [Se Sr].
  cbv zeta. cbn [run].
  destruct (step_keeps_refs e w Se) as (I & O & P).
  specialize (IH Sr (after (step decodeAudioData e w))). cbv zeta in IH.
  destruct (run decodeAudioData rest (after (step decodeAudioData e w)))
    as [w' l].
  cbn [fst] in *. destruct IH as (I' & O' & P').
  rewrite I', O', P'. repeat split; assumption.
Qed.

(** X7.  A session from [connect()] to [disconnect()] gives back what it
    took.  If [connect()] is called with the guard down, everything
    succeeds (no other handler running while it awaits) and the session it
    asked for opens, then whatever else happens in the session (frames,
    messages, ended sources, a close or an error of the transport),
    nothing is released before [disconnect()], and [disconnect()] closes
    the input context [connect()] created, stops each source still in the
    active set, closes the output context [connect()] created and closes
    the session [connect()] opened, in this order, leaving no ref set, an
    empty active set and both flags down.  The session has opened, so its
    promise is fulfilled and the [then] callback that closes it runs at
    the end of [disconnect()]'s own turn; a [disconnect()] that comes
    before the opening is not covered. *)
Theorem disconnect_releases_what_connect_acquired
  (w : World) (es : list Event) :
  activeRef (hook w) = false ->
  forallb in_session es = true ->
  In (OnOpen {| inputCtx := next_object w;
                sessionPromise := S (S (next_object w)) |}) es ->
  let n := next_object w in
  let during := run decodeAudioData (Connect Succeeds :: es) w in
  let o := step decodeAudioData Disconnect (fst during) in
  releases (snd during) = []
  /\ performed o
     = AudioContextClose n
         :: map SourceStop (sourcesRef (hook (fst during)))
         ++ [AudioContextClose (S n); SessionClose (S (S n))]
  /\ inputAudioContextRef (hook (after o)) = None
  /\ outputAudioContextRef (hook (after o)) = None
  /\ sessionPromiseRef (hook (after o)) = None
  /\ sourcesRef (hook (after o)) = []
  /\ isConnected (hook (after o)) = false
  /\ isConnecting (hook (after o)) = false
  /\ activeRef (hook (after o)) = false.
Proof.
  intros A Hs _. cbv zeta.
  split.
  - apply run_releases. cbn [forallb not_disconnect]. cbn.
    apply forallb_forall. intros e He.
    apply (proj1 (forallb_forall _ _) Hs) in He.
    destruct e; try reflexivity. discriminate He.
  - cbn [run].
    set (w1 := after (step decodeAudioData (Connect Succeeds) w)).
    assert (R1 : inputAudioContextRef (hook w1) = Some (next_object w)
                 /\ outputAudioContextRef (hook w1) = Some (S (next_object w))
                 /\ sessionPromiseRef (hook w1)
                    = Some (S (S (next_object w)))).
    { subst w1. destruct w as [[cd cg er i o nx so p ac] k].
      cbn in A. subst ac. repeat split. }
    destruct (run_keeps_refs es Hs w1) as (I & O & P).
    destruct R1 as (I1 & O1 & P1). rewrite I1 in I. rewrite O1 in O.
    rewrite P1 in P.
    destruct (run decodeAudioData es w1) as [w2 l2]. cbn [fst snd] in *.
    rewrite step_disconnect. cbn [performed after hook].
    unfold disconnect_effects, disconnected. rewrite I, O, P. cbn.
    rewrite <- app_assoc. repeat split.
Qed.

(** X8.  A [connect()] that fails during setup, called with the guard
    down: the call still returns (the exception is caught), the error shown
    is the exception's message, or "Failed to connect to microphone or API"
    when it has none, isConnecting is cleared, isConnected, the guard and
    the session ref are left as they were and no session is opened.  The
    audio contexts created before the failure are stored in the refs only
    when it is [getUserMedia] that fails; after an earlier failure the refs
    are left as they were, although one or two contexts may have been
    created. *)
Theorem failed_setup_is_reported (stage : SetupStage) (message : string)
  (w : World) :
  activeRef (hook w) = false ->
  let o := step decodeAudioData (Connect (Fails stage message)) w in
  let n := next_object w in
  completion o = Returned
  /\ error (hook (after o))
     = Some (if String.eqb message ""
             then "Failed to connect to microphone or API" else message)
  /\ isConnecting (hook (after o)) = false
  /\ isConnected (hook (after o)) = isConnected (hook w)
  /\ activeRef (hook (after o)) = false
  /\ sessionPromiseRef (hook (after o)) = sessionPromiseRef (hook w)
  /\ (forall session, ~ In (LiveConnect session) (performed o))
  /\ match stage with
     | AtGetUserMedia =>
         performed o
         = [NewAudioContext n 16000; NewAudioContext (S n) 24000; GetUserMedia]
         /\ inputAudioContextRef (hook (after o)) = Some n
         /\ outputAudioContextRef (hook (after o)) = Some (S n)
     | AtResume =>
         performed o = [NewAudioContext n 16000; NewAudioContext (S n) 24000]
         /\ inputAudioContextRef (hook (after o)) = inputAudioContextRef (hook w)
         /\ outputAudioContextRef (hook (after o))
            = outputAudioContextRef (hook w)
     | AtOutputContext =>
         performed o = [NewAudioContext n 16000]
         /\ inputAudioContextRef (hook (after o)) = inputAudioContextRef (hook w)
         /\ outputAudioContextRef (hook (after o))
            = outputAudioContextRef (hook w)
     | AtGoogleGenAI | AtInputContext =>
         performed o = []
         /\ inputAudioContextRef (hook (after o)) = inputAudioContextRef (hook w)
         /\ outputAudioContextRef (hook (after o))
            = outputAudioContextRef (hook w)
     end.
Proof.
  destruct w as [[cd cg er i o nx so p ac] k]. cbn. intros ->.
  destruct stage; cbn; repeat split.
  all: try (intros session H; cbn in H; intuition discriminate).
Qed.

(** X9.  A transport error or a close by the service loses no handle: a
    [disconnect()] called afterwards performs exactly what it would have
    performed before, and leaves the state it would have left, up to the
    error message. *)
Theorem disconnect_after_error_or_close (w : World) :
  (performed
     (step decodeAudioData Disconnect (after (step decodeAudioData OnError w)))
   = performed (step decodeAudioData Disconnect w)
   /\ hook (after
              (step decodeAudioData Disconnect
                 (after (step decodeAudioData OnError w))))
      = setError (Some "Connection error occurred.")
          (hook (after (step decodeAudioData Disconnect w))))
  /\ step decodeAudioData Disconnect (after (step decodeAudioData OnClose w))
     = step decodeAudioData Disconnect w.
Proof.
  rewrite !step_disconnect, step_onerror.
  destruct w as [[cd cg er i o nx so p ac] k].
  repeat split.
Qed.

(** X10.  While the guard is set, every captured frame is sent to the
    session of the handler that captured it, one send per frame, in capture
    order, and capturing changes nothing in the hook; while the guard is
    down no frame is sent. *)
Theorem frames_are_sent_in_capture_order (c : Closure)
  (frames : list (list float)) (w : World) :
  run decodeAudioData (map (OnAudioProcess c) frames) w
  = (w,
     if activeRef (hook w)
     then map (SendRealtimeInput (sessionPromise c)) frames
     else []).
Proof.
  induction frames as [|f rest IH].
  - cbn. destruct (activeRef (hook w)); reflexivity.
  - cbn [map run]. rewrite step_onaudioprocess. cbn [after performed].
    rewrite IH. destruct (activeRef (hook w)); reflexivity.
Qed.

Lemma finish_after (s : list (Q * Q)) :
  Forall (fun sd => (0 <= snd sd)%Q) s ->
  forall t, back_to_back t s -> (t <= finish t s)%Q.
Proof.
  induction 1 as [|[start d] rest Hd _ IH]; intros t; cbn;
    [intros _; apply Qle_refl|].
  intros [H1 H2].
  apply Qle_trans with start; [exact H1|].
  apply Qle_trans with (start + d)%Q; [|apply IH, H2].
  rewrite <- (Qplus_0_r start) at 1. apply Qplus_le_r. exact Hd.
Qed.

(** X11.  The playback watermark never moves back, whatever the events;
    [disconnect()] and [connect()] leave it exactly where it is, so a new
    session starts scheduling from the watermark the previous one
    reached. *)
Theorem watermark_never_moves_back :
  (forall es w,
      (nextStartTimeRef (hook w)
       <= nextStartTimeRef (hook (fst (run decodeAudioData es w))))%Q)
  /\ (forall w,
         nextStartTimeRef (hook (after (step decodeAudioData Disconnect w)))
         = nextStartTimeRef (hook w))
  /\ (forall env w,
         nextStartTimeRef (hook (after (step decodeAudioData (Connect env) w)))
         = nextStartTimeRef (hook w)).
Proof.
  split; [|split].
  - intros es w. destruct (run_time decodeAudioData es w) as [B F].
    apply Qle_trans with (2 := F).
    apply finish_after; [apply schedule_durations|exact B].
  - intros w. rewrite step_disconnect. reflexivity.
  - intros env w. destruct w as [[cd cg er i o nx so p [|]] k];
      [|destruct env as [|[] msg]]; reflexivity.
Qed.

End Facts.

(** A session that is opened, plays one fragment and then fails. *)
Lemma disconnect_releases_what_connect_acquired_witness :
  performed
    (step Scenario.decode_pcm Disconnect
       (fst (run Scenario.decode_pcm
               (Connect Succeeds
                :: [ OnOpen Scenario.live;
                     OnMessage Scenario.live (1 # 2)
                       (Scenario.audio_message "AAAA");
                     OnError ])
               initial)))
  = [ AudioContextClose 0; SourceStop 3; AudioContextClose 1; SessionClose 2 ].
Proof.
  pose proof (disconnect_releases_what_connect_acquired Scenario.decode_pcm
                initial
                [ OnOpen Scenario.live;
                  OnMessage Scenario.live (1 # 2)
                    (Scenario.audio_message "AAAA");
                  OnError ]
                eq_refl eq_refl (or_introl eq_refl)) as H.
  cbv zeta in H. destruct H as (_ & P & _).
  exact P.
Defined.

(** Permission to use the microphone is denied on a fresh page. *)
Lemma failed_setup_is_reported_witness :
  error
    (hook
       (after
          (step Scenario.decode_pcm
             (Connect (Fails AtGetUserMedia "Permission denied")) initial)))
  = Some "Permission denied"
  /\ isConnecting
       (hook
          (after
             (step Scenario.decode_pcm
                (Connect (Fails AtGetUserMedia "Permission denied")) initial)))
     = false.
Proof.
  pose proof (failed_setup_is_reported Scenario.decode_pcm
                AtGetUserMedia "Permission denied" initial eq_refl) as H.
  cbv zeta in H. destruct H as (_ & E & C & _).
  split; [exact E|exact C].
Defined.


(** X12.  What [OperationType[opKey] || OperationType.UNKNOWN] yields, key
    by key: each of the six names of the enum gives its member; each of
    the twelve names an object inherits from [Object.prototype] gives the
    inherited value, not a member; every other key gives [UNKNOWN].  So
    the lookup yields a member other than [UNKNOWN] for that member's own
    name only, and the five declared names are the only keys that make the
    accumulator compute. *)
Theorem lookup_of_every_key :
  (opType "ADD" = Member ADD
   /\ opType "SUBTRACT" = Member SUBTRACT
   /\ opType "MULTIPLY" = Member MULTIPLY
   /\ opType "DIVIDE" = Member DIVIDE
   /\ opType "RESET" = Member RESET
   /\ opType "UNKNOWN" = Member UNKNOWN)
  /\ (forall key,
         In key
           [ "constructor"; "hasOwnProperty"; "isPrototypeOf";
             "propertyIsEnumerable"; "toLocaleString"; "toString";
             "valueOf"; "__proto__"; "__defineGetter__";
             "__defineSetter__"; "__lookupGetter__"; "__lookupSetter__" ] ->
         opType key = Inherited key)
  /\ (forall key,
         ~ In key [ "ADD"; "SUBTRACT"; "MULTIPLY"; "DIVIDE"; "RESET" ] ->
         ~ In key
             [ "constructor"; "hasOwnProperty"; "isPrototypeOf";
               "propertyIsEnumerable"; "toLocaleString"; "toString";
               "valueOf"; "__proto__"; "__defineGetter__";
               "__defineSetter__"; "__lookupGetter__"; "__lookupSetter__" ] ->
         opType key = Member UNKNOWN)
  /\ (forall key o,
         opType key = Member o ->
         o <> UNKNOWN ->
         In (key, o)
           [ ("ADD", ADD); ("SUBTRACT", SUBTRACT); ("MULTIPLY", MULTIPLY);
             ("DIVIDE", DIVIDE); ("RESET", RESET) ])
  /\ (forall key value prevTotal,
         ~ In key [ "ADD"; "SUBTRACT"; "MULTIPLY"; "DIVIDE"; "RESET" ] ->
         App.newTotal prevTotal (opType key) value = prevTotal).
Proof.
  assert (Inh : forall key,
             In key Object_prototype_keys -> opType key = Inherited key).
  { intros key H. cbn in H.
    repeat (destruct H as [<-|H]; [reflexivity|]). destruct H. }
  assert (Cases : forall key,
             In key declared_operations
             \/ key = "UNKNOWN"
             \/ In key Object_prototype_keys
             \/ opType key = Member UNKNOWN).
  { intros key.
    destruct (in_dec string_dec key declared_operations) as [D|D];
      [left; exact D|].
    destruct (in_dec string_dec key Object_prototype_keys) as [P|P];
      [right; right; left; exact P|].
    right; right; right. apply opType_unknown; assumption. }
  split; [repeat split|].
  split; [exact Inh|].
  split; [intros key D P; apply opType_unknown; assumption|].
  split.
  - intros key o E N.
    destruct (Cases key) as [D|[->|[P|U]]].
    + cbn in D.
      repeat (destruct D as [<-|D];
              [cbn in E; injection E as <-; cbn; tauto|]).
      destruct D.
    + cbn in E. injection E as <-. contradiction N. reflexivity.
    + rewrite (Inh key P) in E. discriminate E.
    + rewrite U in E. injection E as <-. contradiction N. reflexivity.
  - intros key value prevTotal D.
    destruct (Cases key) as [D'|[->|[P|U]]].
    + contradiction.
    + reflexivity.
    + rewrite (Inh key P). reflexivity.
    + rewrite U. reflexivity.
Qed.

End Lifecycle.

(** ** One message *)

Module Messages.

Import LiveMath Reading Session.

Lemma toolCall_loop_stops (c : Closure) (before rest : list FunctionCall.t)
  (fc : FunctionCall.t) :
  Forall (fun fc => has_args fc = true) before ->
  is_performMathOperation fc = true ->
  FunctionCall.args fc = None ->
  toolCall_loop c (before ++ fc :: rest)
  = (false, snd (fst (toolCall_loop c before)), snd (toolCall_loop c before)).
Proof.
  intros H D A. induction H as [|x l Hx _ IH].
  - cbn. rewrite D, A. reflexivity.
  - cbn [app toolCall_loop]. rewrite IH.
    unfold has_args in Hx.
    destruct (is_performMathOperation x); [|reflexivity].
    destruct (FunctionCall.args x) as [args|]; [|discriminate Hx].
    destruct (toolCall_loop c l) as [[ok calls] acks]. reflexivity.
Qed.

Lemma toolCall_loop_handled (c : Closure) (fcs : list FunctionCall.t) :
  toolCall_loop c fcs
  = (forallb has_args fcs,
     map operation_of (handled fcs),
     map (fun h => acknowledgement c (fst h)) (handled fcs)).
Proof.
  induction fcs as [|fc rest IH]; [reflexivity|].
  cbn [toolCall_loop handled forallb]. unfold has_args at 1.
  destruct (is_performMathOperation fc); cbn [negb orb andb];
    [|exact IH].
  destruct (FunctionCall.args fc) as [args|]; [|reflexivity].
  rewrite IH. reflexivity.
Qed.

Lemma toolCall_part_handled (c : Closure) (m : LiveServerMessage.t) :
  toolCall_part c m
  = (loop_ends m,
     map operation_of (handled (functionCalls_of m)),
     map (fun h => acknowledgement c (fst h)) (handled (functionCalls_of m))).
Proof.
  unfold toolCall_part, loop_ends, functionCalls_of.
  destruct (LiveServerMessage.toolCall m) as [tc|]; [|reflexivity].
  destruct (LiveServerToolCall.functionCalls tc) as [fcs|]; [|reflexivity].
  apply toolCall_loop_handled.
Qed.

Lemma started_none (l : list Effect) :
  Forall (fun e => is_callback e = true \/ is_ToolResponse e = true) l ->
  started l = [] /\ started_nodes l = [].
Proof.
  induction 1 as [|e rest He _ [IH1 IH2]]; [split; reflexivity|].
  unfold started in *.
  destruct e; cbn in He; cbn [filter is_SourceStart started_nodes];
    try (split; assumption);
    destruct He as [He|He]; discriminate He.
Qed.

Section Facts.

Variable decodeAudioData : string -> option AudioBuffer.

(** X13.  An invocation of the declared tool that carries no argument
    object stops the handler where it stands: the turn throws, it performs
    exactly what a message carrying only the invocations before it would
    perform (their callbacks, then their acknowledgements), and the hook's
    state is untouched.  The invocation itself, the invocations after it,
    the transcript and the audio of the message are dropped. *)
Theorem invocation_without_args_stops_the_message
  (c : Closure) (currentTime : Q) (before rest : list FunctionCall.t)
  (fc : FunctionCall.t) (serverContent : option LiveServerContent.t)
  (w : World) :
  Forall (fun fc => has_args fc = true) before ->
  is_performMathOperation fc = true ->
  FunctionCall.args fc = None ->
  let m :=
    {| LiveServerMessage.toolCall :=
         Some {| LiveServerToolCall.functionCalls :=
                   Some (before ++ fc :: rest) |};
       LiveServerMessage.serverContent := serverContent |} in
  let m0 :=
    {| LiveServerMessage.toolCall :=
         Some {| LiveServerToolCall.functionCalls := Some before |};
       LiveServerMessage.serverContent := None |} in
  let o := step decodeAudioData (OnMessage c currentTime m) w in
  completion o = Threw
  /\ after o = w
  /\ performed o
     = performed (step decodeAudioData (OnMessage c currentTime m0) w)
  /\ completion (step decodeAudioData (OnMessage c currentTime m0) w)
     = Returned.
Proof.
  intros H D A. cbv zeta. rewrite !step_onmessage.
  unfold onmessage_outcome, toolCall_part.
  cbn [LiveServerMessage.toolCall LiveServerToolCall.functionCalls].
  rewrite (toolCall_loop_stops c before rest fc H D A).
  destruct (toolCall_loop_has_args c before H) as [Ok _].
  destruct (toolCall_loop c before) as [[ok calls] acks].
  cbn [fst snd] in *. subst ok. cbn.
  repeat split.
Qed.

(** X14.  What one message makes the hook do, in order.  With the
    handled invocations being those of the declared tool up to the first
    that lacks its arguments: first one call of [onOperation] per handled
    invocation, in the order of the message, with the operation looked up
    from its [args.operation] and the number [Number(args.value)]; then, if
    the loop ran to its end and the message carries an input
    transcription, one call of [onTranscriptUpdate] with its text; then
    one acknowledgement per handled invocation, in the same order; then at
    most one source started, and none when the loop did not end.  So the
    page has applied every operation of a message before the service is
    told of any. *)
Theorem a_turn_calls_back_then_acknowledges_then_plays
  (c : Closure) (currentTime : Q) (m : LiveServerMessage.t) (w : World) :
  let l := performed (step decodeAudioData (OnMessage c currentTime m) w) in
  let hs := handled (functionCalls_of m) in
  l = map operation_of hs
      ++ (if loop_ends m
          then match inputTranscription_of m with
               | Some transcription =>
                   [CallOnTranscriptUpdate (Transcription.text transcription)]
               | None => []
               end
          else [])
      ++ map (fun h => acknowledgement c (fst h)) hs
      ++ started l
  /\ (List.length (started l) <= 1)%nat
  /\ (loop_ends m = false -> started l = []).
Proof.
  cbv zeta. rewrite step_onmessage.
  destruct (toolCall_part_kinds c m) as [Kc Ka].
  pose proof (transcript_part_kind m) as Kt.
  unfold onmessage_outcome.
  rewrite (toolCall_part_handled c m) in *. cbn [fst snd] in Kc, Ka.
  fold (transcript_part m).
  set (calls := map operation_of (handled (functionCalls_of m))) in *.
  set (acks := map (fun h => acknowledgement c (fst h))
                 (handled (functionCalls_of m))) in *.
  assert (N1 : started (calls ++ acks) = []).
  { apply started_none. apply Forall_app. split.
    - eapply Forall_impl; [|exact Kc]. cbv beta. auto.
    - eapply Forall_impl; [|exact Ka]. cbv beta. auto. }
  assert (N2 : started (calls ++ transcript_part m ++ acks) = []).
  { apply started_none. apply Forall_app. split; [|apply Forall_app; split].
    - eapply Forall_impl; [|exact Kc]. cbv beta. auto.
    - eapply Forall_impl; [|exact Kt]. cbv beta. auto.
    - eapply Forall_impl; [|exact Ka]. cbv beta. auto. }
  destruct (loop_ends m); cbn [negb].
  - assert (Plain :
      let l := calls ++ transcript_part m ++ acks in
      l = calls ++ transcript_part m ++ acks ++ started l
      /\ (List.length (started l) <= 1)%nat
      /\ (true = false -> started l = [])).
    { cbv zeta. rewrite N2, app_nil_r.
      split; [reflexivity|split; [cbn; auto|intros H; discriminate H]]. }
    cbv zeta in Plain.
    destruct (audio_part m) as [b|]; [|exact Plain].
    destruct (truthy b) as [data|]; [|exact Plain].
    destruct (outputAudioContextRef (hook w)) as [ctx|]; [|exact Plain].
    destruct (decodeAudioData data) as [buf|]; [|exact Plain].
    cbn [performed].
    unfold started at 1 2 3.
    rewrite !(filter_app _ (calls ++ transcript_part m ++ acks)).
    fold (started (calls ++ transcript_part m ++ acks)).
    rewrite N2. cbn [filter is_SourceStart app List.length].
    rewrite <- !app_assoc.
    split; [reflexivity|split; [auto|intros H; discriminate H]].
  - cbn [performed]. rewrite N1, app_nil_r. cbn [app].
    split; [reflexivity|split; [cbn; auto|reflexivity]].
Qed.

(** X15.  A message turn that throws starts no source: the active set and
    the object counter are as before, and the hook's state is untouched
    except, when it is the decoding that throws, for the watermark, which
    has already been raised to the clock reading. *)
Theorem a_message_that_throws_starts_nothing
  (c : Closure) (currentTime : Q) (m : LiveServerMessage.t) (w : World) :
  let o := step decodeAudioData (OnMessage c currentTime m) w in
  completion o = Threw ->
  started (performed o) = []
  /\ started_nodes (performed o) = []
  /\ next_object (after o) = next_object w
  /\ (hook (after o) = hook w
      \/ hook (after o)
         = set_nextStartTimeRef
             (Qmax (nextStartTimeRef (hook w)) currentTime) (hook w)).
Proof.
  cbv zeta. rewrite step_onmessage.
  destruct (toolCall_part_kinds c m) as [Kc Ka].
  pose proof (transcript_part_kind m) as Kt.
  unfold onmessage_outcome.
  destruct (toolCall_part c m) as [[ok calls] acks]. cbn [fst snd] in *.
  assert (N1 : started (calls ++ acks) = []
               /\ started_nodes (calls ++ acks) = []).
  { apply started_none. apply Forall_app. split.
    - eapply Forall_impl; [|exact Kc]. cbv beta. auto.
    - eapply Forall_impl; [|exact Ka]. cbv beta. auto. }
  assert (N2 : started (calls ++ transcript_part m ++ acks) = []
               /\ started_nodes (calls ++ transcript_part m ++ acks) = []).
  { apply started_none. apply Forall_app. split; [|apply Forall_app; split].
    - eapply Forall_impl; [|exact Kc]. cbv beta. auto.
    - eapply Forall_impl; [|exact Kt]. cbv beta. auto.
    - eapply Forall_impl; [|exact Ka]. cbv beta. auto. }
  destruct N1 as [N1 N1']. destruct N2 as [N2 N2'].
  destruct ok; cbn [negb].
  - destruct (audio_part m) as [b|]; [|cbn; auto].
    destruct (truthy b) as [data|]; [|cbn; intros H; discriminate H].
    destruct (outputAudioContextRef (hook w)) as [ctx|];
      [|cbn; intros H; discriminate H].
    destruct (decodeAudioData data) as [buf|];
      [cbn; intros H; discriminate H|].
    cbn. auto.
  - cbn. auto.
Qed.

End Facts.

(** A message whose second invocation of the tool has no arguments. *)
Lemma invocation_without_args_stops_the_message_witness :
  performed
    (step Scenario.decode_pcm
       (OnMessage Scenario.live 0
          {| LiveServerMessage.toolCall :=
               Some {| LiveServerToolCall.functionCalls :=
                         Some ([ Scenario.performMathOperation "a" (Scenario.text "ADD")
                                 (Scenario.num "50" 50%float) ]
                               ++ {| FunctionCall.id := Some "b";
                                     FunctionCall.args := None;
                                     FunctionCall.name :=
                                       Some "performMathOperation" |}
                               :: [ Scenario.performMathOperation "c" (Scenario.text "ADD")
                                 (Scenario.num "1" 1%float) ])
                    |};
             LiveServerMessage.serverContent := None |})
       Scenario.opened)
  = [ CallOnOperation (Member ADD) 50%float;
      SendToolResponse 2 (Some "a") (Some "performMathOperation")
        "ok, state updated" ].
Proof.
  assert (A : Forall (fun fc => has_args fc = true)
                [ Scenario.performMathOperation "a" (Scenario.text "ADD")
                                 (Scenario.num "50" 50%float) ])
    by (repeat constructor).
  pose proof (invocation_without_args_stops_the_message Scenario.decode_pcm
                Scenario.live 0
                [ Scenario.performMathOperation "a" (Scenario.text "ADD")
                                 (Scenario.num "50" 50%float) ]
                [ Scenario.performMathOperation "c" (Scenario.text "ADD")
                                 (Scenario.num "1" 1%float) ]
                {| FunctionCall.id := Some "b";
                   FunctionCall.args := None;
                   FunctionCall.name := Some "performMathOperation" |}
                None Scenario.opened
                A eq_refl eq_refl) as H.
  cbv zeta in H. destruct H as (_ & _ & P & _).
  rewrite P. reflexivity.
Defined.

Lemma a_message_that_throws_starts_nothing_witness :
  started
    (performed
       (step Scenario.decode_pcm
          (OnMessage Scenario.live 0 Scenario.bare_message) Scenario.opened))
  = [].
Proof.
  exact (proj1 (a_message_that_throws_starts_nothing Scenario.decode_pcm
                  Scenario.live 0 Scenario.bare_message Scenario.opened
                  eq_refl)).
Defined.

End Messages.

(** ** What holds in every reachable state *)

Module Reachable.

Import LiveMath Reading Session.

Lemma started_nodes_app (l1 l2 : list Effect) :
  started_nodes (l1 ++ l2) = started_nodes l1 ++ started_nodes l2.
Proof.
  induction l1 as [|e rest IH]; [reflexivity|].
  destruct e; cbn [app started_nodes]; rewrite ?IH; reflexivity.
Qed.

Lemma Set_add_incl (x : nat) (s : list nat) : incl (Set_add x s) (s ++ [x]).
Proof.
  unfold Set_add. destruct (existsb (Nat.eqb x) s).
  - apply incl_appl, incl_refl.
  - apply incl_refl.
Qed.

Lemma Set_add_fresh (x : nat) (s : list nat) :
  Forall (fun node => (node < x)%nat) s -> Set_add x s = s ++ [x].
Proof.
  intros F. unfold Set_add.
  destruct (existsb (Nat.eqb x) s) eqn:E; [|reflexivity].
  apply existsb_exists in E. destruct E as (y & Hy & Exy).
  apply Nat.eqb_eq in Exy. subst y.
  apply (proj1 (Forall_forall _ _) F) in Hy. lia.
Qed.

Lemma no_release (l : list Effect) :
  releases l = [] ->
  forall k,
    ~ In (AudioContextClose k) l /\ ~ In (SourceStop k) l
    /\ ~ In (SessionClose k) l.
Proof.
  intros R k. unfold releases in R.
  repeat split; intros H;
    (assert (I : In _ (filter is_release l))
       by (apply filter_In; split; [exact H|reflexivity]));
    rewrite R in I; exact I.
Qed.

Section Facts.

Variable decodeAudioData : string -> option AudioBuffer.

(** A message either starts nothing and leaves the active set alone, or
    starts one new source and adds it to the set. *)
Lemma onmessage_sources (c : Closure) (currentTime : Q)
  (m : LiveServerMessage.t) (w : World) :
  let o := step decodeAudioData (OnMessage c currentTime m) w in
  (sourcesRef (hook (after o)) = sourcesRef (hook w)
   /\ started_nodes (performed o) = []
   /\ next_object (after o) = next_object w)
  \/ (sourcesRef (hook (after o))
      = Set_add (next_object w) (sourcesRef (hook w))
      /\ started_nodes (performed o) = [next_object w]
      /\ next_object (after o) = S (next_object w)).
Proof.
  cbv zeta. rewrite step_onmessage.
  destruct (toolCall_part_kinds c m) as [Kc Ka].
  pose proof (transcript_part_kind m) as Kt.
  unfold onmessage_outcome.
  destruct (toolCall_part c m) as [[ok calls] acks]. cbn [fst snd] in *.
  assert (N1 : started_nodes (calls ++ acks) = []).
  { apply Messages.started_none. apply Forall_app. split.
    - eapply Forall_impl; [|exact Kc]. cbv beta. auto.
    - eapply Forall_impl; [|exact Ka]. cbv beta. auto. }
  assert (N2 : started_nodes (calls ++ transcript_part m ++ acks) = []).
  { apply Messages.started_none.
    apply Forall_app. split; [|apply Forall_app; split].
    - eapply Forall_impl; [|exact Kc]. cbv beta. auto.
    - eapply Forall_impl; [|exact Kt]. cbv beta. auto.
    - eapply Forall_impl; [|exact Ka]. cbv beta. auto. }
  destruct ok; cbn [negb]; [|left; cbn; auto].
  destruct (audio_part m) as [b|]; [|left; cbn; auto].
  destruct (truthy b) as [data|]; [|left; cbn; auto].
  destruct (outputAudioContextRef (hook w)) as [ctx|]; [|left; cbn; auto].
  destruct (decodeAudioData data) as [buf|]; [|left; cbn; auto].
  right. cbn [after performed hook next_object].
  rewrite started_nodes_app, N2. cbn. auto.
Qed.

(** No handler gives an object's identity back. *)
Lemma step_next_object (e : Event) (w : World) :
  (next_object w <= next_object (after (step decodeAudioData e w)))%nat.
Proof.
  destruct e as [env| |c|c inputData|c currentTime m|source| |];
    try (cbn; lia).
  - destruct w as [[cd cg er i o nx so p [|]] k]; [cbn; lia|].
    destruct env as [|[] msg]; cbn; lia.
  - rewrite step_disconnect. cbn. lia.
  - rewrite step_onaudioprocess. cbn. lia.
  - destruct (onmessage_sources c currentTime m w) as [(_ & _ & N)|(_ & _ & N)];
      rewrite N; lia.
Qed.

Lemma step_sources_incl (e : Event) (w : World) :
  let o := step decodeAudioData e w in
  incl (sourcesRef (hook (after o)))
    (sourcesRef (hook w) ++ started_nodes (performed o)).
Proof.
  cbv zeta.
  destruct e as [env| |c|c inputData|c currentTime m|source| |];
    try (cbn; rewrite app_nil_r; apply incl_refl).
  - destruct w as [[cd cg er i o nx so p [|]] k];
      [cbn; rewrite app_nil_r; apply incl_refl|].
    destruct env as [|[] msg]; cbn; rewrite app_nil_r; apply incl_refl.
  - rewrite step_disconnect. cbn [after hook disconnected sourcesRef].
    destruct (outputAudioContextRef (hook w));
      [intros x []|apply incl_appl, incl_refl].
  - rewrite step_onaudioprocess. apply incl_appl, incl_refl.
  - destruct (onmessage_sources c currentTime m w)
      as [(S & N & _)|(S & N & _)]; rewrite S, N.
    + apply incl_appl, incl_refl.
    + apply Set_add_incl.
  - cbn. rewrite app_nil_r. unfold Set_delete. apply incl_filter.
Qed.

Lemma step_sources (e : Event) (w : World) :
  Forall (fun node => (node < next_object w)%nat) (sourcesRef (hook w)) ->
  keeps_sources e = true ->
  let o := step decodeAudioData e w in
  sourcesRef (hook (after o))
  = sourcesRef (hook w) ++ started_nodes (performed o)
  /\ Forall (fun node => (node < next_object (after o))%nat)
       (sourcesRef (hook (after o))).
Proof.
  intros F K. cbv zeta.
  assert (G : forall k,
             (next_object w <= k)%nat ->
             Forall (fun node => (node < k)%nat) (sourcesRef (hook w))).
  { intros k Hk. eapply Forall_impl; [|exact F]. cbv beta. intros a. lia. }
  destruct e as [env| |c|c inputData|c currentTime m|source| |];
    try discriminate K;
    try (cbn; rewrite app_nil_r; split; [reflexivity|exact F]).
  - pose proof (step_next_object (Connect env) w) as M.
    destruct w as [[cd cg er i o nx so p [|]] k];
      [cbn; rewrite app_nil_r; split; [reflexivity|exact F]|].
    destruct env as [|[] msg]; cbn in *; rewrite app_nil_r;
      (split; [reflexivity|apply G; lia]).
  - rewrite step_onaudioprocess. cbn [after performed].
    destruct (activeRef (hook w)); cbn; rewrite app_nil_r;
      (split; [reflexivity|exact F]).
  - destruct (onmessage_sources c currentTime m w)
      as [(S & N & O)|(S & N & O)]; rewrite S, N, O.
    + rewrite app_nil_r. split; [reflexivity|exact F].
    + rewrite (Set_add_fresh _ _ F). split; [reflexivity|].
      apply Forall_app. split; [apply G; lia|].
      constructor; [lia|constructor].
Qed.

(** X16.  The active set against the sources started.  Whatever the
    events, a source in the active set was in it at the start or has been
    started since.  As long as no source ends and [disconnect()] is not
    called, nothing leaves the set: it is the set at the start followed by
    every source started since, in starting order, each once. *)
Theorem active_set_holds_the_sources_started :
  (forall es w,
      incl (sourcesRef (hook (fst (run decodeAudioData es w))))
        (sourcesRef (hook w)
         ++ started_nodes (snd (run decodeAudioData es w))))
  /\ (forall es w,
         Forall (fun node => (node < next_object w)%nat)
           (sourcesRef (hook w)) ->
         forallb keeps_sources es = true ->
         sourcesRef (hook (fst (run decodeAudioData es w)))
         = sourcesRef (hook w)
           ++ started_nodes (snd (run decodeAudioData es w))).
Proof.
  split.
  - induction es as [|e rest IH]; intros w;
      [cbn; rewrite app_nil_r; apply incl_refl|].
    cbn [run].
    pose proof (step_sources_incl e w) as Hs. cbv zeta in Hs.
    specialize (IH (after (step decodeAudioData e w))).
    destruct (run decodeAudioData rest (after (step decodeAudioData e w)))
      as [w' l].
    cbn [fst snd] in *. rewrite started_nodes_app.
    intros x Hx. apply IH in Hx. apply in_app_or in Hx.
    rewrite app_assoc. apply in_or_app.
    destruct Hx as [Hx|Hx]; [left; apply Hs, Hx|right; exact Hx].
  - induction es as [|e rest IH]; intros w F K;
      [cbn; rewrite app_nil_r; reflexivity|].
    cbn [forallb] in K. apply andb_prop in K. destruct K as [Ke Kr].
    cbn [run].
    destruct (step_sources e w F Ke) as [Hs Hf].
    specialize (IH (after (step decodeAudioData e w)) Hf Kr).
    destruct (run decodeAudioData rest (after (step decodeAudioData e w)))
      as [w' l].
    cbn [fst snd] in *. rewrite started_nodes_app, IH, Hs, app_assoc.
    reflexivity.
Qed.

Lemma step_one_phase (e : Event) (w : World) :
  in_sync w -> one_phase w -> one_phase (after (step decodeAudioData e w)).
Proof.
  unfold in_sync, one_phase. intros S P.
  destruct e as [env| |c|c inputData|c currentTime m|source| |].
  - destruct w as [[cd cg er i o nx so p ac] k]. cbn in S, P. subst cd.
    destruct ac; [exact P|].
    destruct env as [|[] msg]; reflexivity.
  - rewrite step_disconnect. reflexivity.
  - reflexivity.
  - rewrite step_onaudioprocess. exact P.
  - destruct (Lifecycle.onmessage_frame decodeAudioData c currentTime m w)
      as (C & G & _).
    rewrite C, G. exact P.
  - exact P.
  - reflexivity.
  - reflexivity.
Qed.

(** X17.  From a state where the flag isConnected agrees with the guard
    and the hook does not show itself connected and connecting at once
    (the initial state is one), every sequence of events leads to such a
    state.  So while the page shows "connecting" the guard is down, and a
    second call of [connect()] then would not be the no-op it is once the
    session is open. *)
Theorem never_connected_and_connecting (es : list Event) :
  forall w,
    in_sync w ->
    one_phase w ->
    let w' := fst (run decodeAudioData es w) in
    in_sync w' /\ one_phase w'
    /\ (isConnecting (hook w') = true -> activeRef (hook w') = false).
Proof.
  induction es as [|e rest IH]; intros w S P; cbv zeta.
  - cbn. repeat split; try assumption.
    unfold in_sync, one_phase in *. intros C. rewrite <- S.
    rewrite C, andb_true_r in P. exact P.
  - cbn [run].
    specialize (IH (after (step decodeAudioData e w))
                  (step_in_sync decodeAudioData e w S)
                  (step_one_phase e w S P)).
    cbv zeta in IH.
    destruct (run decodeAudioData rest (after (step decodeAudioData e w)))
      as [w' l].
    exact IH.
Qed.

Lemma step_held_from (n : nat) (e : Event) (w : World) :
  held_from n w ->
  let o := step decodeAudioData e w in
  held_from n (after o)
  /\ forall k, (k < n)%nat -> ~ In (AudioContextClose k) (performed o).
Proof.
  intros (N & I & O). cbv zeta.
  pose proof (step_next_object e w) as M.
  assert (Quiet :
    not_disconnect e = true ->
    forall k,
      (k < n)%nat ->
      ~ In (AudioContextClose k) (performed (step decodeAudioData e w))).
  { intros D k _.
    exact (proj1 (no_release _ (step_releases decodeAudioData e w D) k)). }
  assert (Kept :
    in_session e = true ->
    held_from n (after (step decodeAudioData e w))).
  { intros D.
    destruct (Lifecycle.step_keeps_refs decodeAudioData e w D)
      as (I' & O' & _).
    unfold held_from. rewrite I', O'.
    repeat split; [lia|exact I|exact O]. }
  destruct e as [env| |c|c inputData|c currentTime m|source| |];
    try (split; [apply Kept; reflexivity|apply Quiet; reflexivity]).
  - split; [|apply Quiet; reflexivity].
    destruct w as [[cd cg er i o nx so p ac] k].
    cbn in N, I, O, M |- *.
    destruct ac; [repeat split; assumption|].
    destruct env as [|[] msg]; cbn in M |- *; unfold held_from;
      cbn [hook next_object inputAudioContextRef outputAudioContextRef];
      repeat split; try assumption; try lia;
      intros x Hx; injection Hx as <-; lia.
  - rewrite step_disconnect. cbn [after performed]. split.
    + unfold held_from. cbn. repeat split; [exact N| |];
        intros x Hx; discriminate Hx.
    + intros k Hk. unfold disconnect_effects.
      destruct (inputAudioContextRef (hook w)) as [i|] eqn:Ei;
        destruct (outputAudioContextRef (hook w)) as [o|] eqn:Eo;
        destruct (sessionPromiseRef (hook w)) as [p|] eqn:Ep;
        try (specialize (I _ eq_refl));
        try (specialize (O _ eq_refl));
        intros H;
        repeat (apply in_app_or in H; destruct H as [H|H]);
        try (apply in_map_iff in H; destruct H as (y & Hy & _);
             discriminate Hy);
        cbn in H;
        repeat (destruct H as [H|H]; try discriminate H;
                try (injection H as <-; lia));
        try contradiction.
Qed.

Lemma run_held_from (n : nat) (es : list Event) :
  forall w,
    held_from n w ->
    forall k,
      (k < n)%nat ->
      ~ In (AudioContextClose k) (snd (run decodeAudioData es w)).
Proof.
  induction es as [|e rest IH]; intros w H k Hk; [intros []|].
  cbn [run].
  destruct (step_held_from n e w H) as [H' Q]. cbv zeta in H', Q.
  specialize (IH _ H' k Hk). specialize (Q k Hk).
  destruct (run decodeAudioData rest (after (step decodeAudioData e w)))
    as [w' l].
  cbn [fst snd] in *.
  intros X; apply in_app_or in X; destruct X as [X|X]; tauto.
Qed.

(** X18.  [connect()] replaces the audio contexts the refs hold without
    closing them, and nothing closes them later.  Called with the guard
    down (at the start, but also after a transport error or a close, or
    before the session has opened) and succeeding, [connect()] releases
    nothing and leaves in the two context refs the contexts it has just
    created.  And from any state whose context refs hold no context older
    than a given object, no sequence of events, [disconnect()] included,
    closes an older context: a [disconnect()] closes what the refs hold,
    and the refs only ever receive new contexts.  So a context that was
    still open when [connect()] stored its own is never closed. *)
Theorem what_connect_replaces_is_never_released :
  (forall w,
      activeRef (hook w) = false ->
      let o := step decodeAudioData (Connect Succeeds) w in
      releases (performed o) = []
      /\ inputAudioContextRef (hook (after o)) = Some (next_object w)
      /\ outputAudioContextRef (hook (after o)) = Some (S (next_object w))
      /\ held_from (next_object w) (after o))
  /\ (forall n w es k,
         held_from n w ->
         (k < n)%nat ->
         ~ In (AudioContextClose k) (snd (run decodeAudioData es w))).
Proof.
  split.
  - intros w A. cbv zeta.
    split; [apply step_releases; reflexivity|].
    destruct w as [[cd cg er i o nx so p ac] n]. cbn in A. subst ac.
    unfold held_from. cbn. repeat split; try lia;
      intros x Hx; injection Hx as <-; lia.
  - intros n w es k H Hk. exact (run_held_from n es w H k Hk).
Qed.

End Facts.

(** The first run from the initial state. *)
Lemma never_connected_and_connecting_witness :
  one_phase
    (fst (run Scenario.decode_pcm
            [ Connect Succeeds; OnOpen Scenario.live; OnError;
              Connect (Fails AtGetUserMedia "Permission denied") ]
            initial)).
Proof.
  exact (proj1 (proj2 (never_connected_and_connecting Scenario.decode_pcm
                         [ Connect Succeeds; OnOpen Scenario.live; OnError;
                           Connect (Fails AtGetUserMedia "Permission denied") ]
                         initial eq_refl eq_refl))).
Defined.

(** The input context of a session that failed is not closed by the
    [disconnect()] that ends the next session. *)
Lemma what_connect_replaces_is_never_released_witness :
  inputAudioContextRef
    (hook (after (step Scenario.decode_pcm OnError Scenario.open_and_playing)))
  = Some 0%nat
  /\ ~ In (AudioContextClose 0)
       (snd (run Scenario.decode_pcm
               [ OnOpen {| inputCtx := 4; sessionPromise := 6 |};
                 Disconnect ]
               (after
                  (step Scenario.decode_pcm (Connect Succeeds)
                     (after (step Scenario.decode_pcm OnError
                               Scenario.open_and_playing)))))).
Proof.
  split; [reflexivity|].
  destruct (proj1 (what_connect_replaces_is_never_released
                     Scenario.decode_pcm)
              (after (step Scenario.decode_pcm OnError
                        Scenario.open_and_playing))
              eq_refl)
    as (_ & _ & _ & H).
  apply (proj2 (what_connect_replaces_is_never_released Scenario.decode_pcm)
           4%nat _ _ 0%nat H).
  lia.
Defined.

End Reachable.

(** ** Values the switch does not expect *)

Module Numbers.

Import App.

(** A number is NaN exactly when its IEEE 754 datum is. *)
Lemma is_nan_datum (x : float) :
  is_nan x = true <-> Prim2SF x = S754_nan.
Proof.
  unfold is_nan. rewrite eqb_spec. unfold SFeqb.
  destruct (Prim2SF x) as [s|s| |s m e]; cbn.
  - split; intros H; discriminate H.
  - destruct s; split; intros H; discriminate H.
  - split; reflexivity.
  - rewrite Z.compare_refl, Pos.compare_cont_refl.
    destruct s; split; intros H; discriminate H.
Qed.

Lemma nan_eqb (x y : float) : is_nan x = true -> (x =? y)%float = false.
Proof.
  intros H. apply is_nan_datum in H. rewrite eqb_spec, H. reflexivity.
Qed.

Lemma nan_left (x y : float) :
  is_nan x = true ->
  is_nan (x + y) = true /\ is_nan (x - y) = true
  /\ is_nan (x * y) = true /\ is_nan (x / y) = true.
Proof.
  intros H. apply is_nan_datum in H.
  repeat split; apply is_nan_datum;
    rewrite ?add_spec, ?sub_spec, ?mul_spec, ?div_spec, H; reflexivity.
Qed.

Lemma nan_right (x y : float) :
  is_nan y = true ->
  is_nan (x + y) = true /\ is_nan (x - y) = true
  /\ is_nan (x * y) = true /\ is_nan (x / y) = true.
Proof.
  intros H. apply is_nan_datum in H.
  repeat split; apply is_nan_datum;
    rewrite ?add_spec, ?sub_spec, ?mul_spec, ?div_spec, H;
    destruct (Prim2SF x) as [s|s| |s m e]; try destruct s; reflexivity.
Qed.

Lemma newTotal_nan (prevTotal : float) (op : OpValue) (value : float) :
  is_nan prevTotal = true ->
  strict_eq op RESET = false ->
  is_nan (newTotal prevTotal op value) = true.
Proof.
  intros H R. destruct (nan_left prevTotal value H) as (A & S & M & D).
  destruct op as [[]|key]; cbn [newTotal]; try assumption;
    try discriminate R.
  destruct (negb (value =? 0)%float); assumption.
Qed.

(** X19.  An operation the switch has no case for ([UNKNOWN], or a value
    the enum lookup inherited) is recorded but not applied: the total and
    the chart's last point stay where they were while the history gains
    the item, which the tape shows with the symbol "?" and no colour.  The
    statistics leave an [UNKNOWN] item out, but count the value of an
    inherited operation as if it had been added. *)
Theorem unrecognised_operation_is_listed_but_not_applied
  (env : Env) (op : OpValue) (value : float) (s : State) :
  forallb (fun o => negb (strict_eq op o))
    [ADD; SUBTRACT; MULTIPLY; DIVIDE; RESET] = true ->
  let s' := handleOperation env op value s in
  currentTotal s' = currentTotal s
  /\ history s'
     = history s
       ++ [ {| HistoryItem.id := randomUUID env;
               HistoryItem.value := value;
               HistoryItem.operation := op;
               HistoryItem.timestamp := Date_now env |} ]
  /\ Visualizer.last_total (history s') = Visualizer.last_total (history s)
  /\ HistoryTape.getOpSymbol op = "?"
  /\ HistoryTape.badge op = []
  /\ StatsPanel.values (history s')
     = StatsPanel.values (history s)
       ++ (if strict_eq op UNKNOWN then [] else [value]).
Proof.
  intros H. cbv zeta.
  rewrite !Accumulator.last_total_fold.
  unfold StatsPanel.values, handleOperation, HistoryTape.badge.
  destruct op as [[]|key]; try discriminate H; cbn;
    rewrite ?fold_left_app, ?filter_app, ?map_app; cbn;
    rewrite ?app_nil_r; repeat split.
Qed.

(** X20.  Not-a-number is absorbing.  [Number(args.value)] is NaN when the
    value is missing or not numeric, and then each of the four arithmetic
    operations makes the total NaN, division included ([NaN !== 0]); once
    the total is NaN, every sequence of operations without a [RESET]
    leaves it NaN, and the chart's last point with it when the page is in
    step; [RESET] brings the total back to 0. *)
Theorem a_NaN_total_lasts_until_reset :
  (forall env o value s,
      In o [ADD; SUBTRACT; MULTIPLY; DIVIDE] ->
      is_nan value = true ->
      is_nan (currentTotal (handleOperation env (Member o) value s)) = true)
  /\ (forall calls s,
         is_nan (currentTotal s) = true ->
         forallb (fun c => negb (strict_eq (call_op c) RESET)) calls = true ->
         is_nan (currentTotal (apply_calls calls s)) = true
         /\ (Page.in_step s ->
             is_nan (Visualizer.last_total (history (apply_calls calls s)))
             = true))
  /\ (forall env value s,
         currentTotal (handleOperation env (Member RESET) value s) = 0%float).
Proof.
  split; [|split].
  - intros env o value s Ho Hv.
    destruct (nan_right (currentTotal s) value Hv) as (A & S & M & D).
    destruct Ho as [<-|[<-|[<-|[<-|[]]]]]; cbn; try assumption.
    rewrite (nan_eqb value 0 Hv). exact D.
  - intros calls s Hs Hc.
    assert (T : is_nan (currentTotal (apply_calls calls s)) = true).
    { revert s Hs. unfold apply_calls.
      induction calls as [|c rest IH]; intros s Hs; [exact Hs|].
      cbn [forallb] in Hc. apply andb_prop in Hc. destruct Hc as [Hc Hr].
      cbn [fold_left]. apply (IH Hr).
      unfold apply_call, handleOperation.
      apply negb_true_iff in Hc. rewrite Hc. cbn [currentTotal].
      apply newTotal_nan; assumption. }
    split; [exact T|].
    intros I. rewrite Accumulator.last_total_fold.
    rewrite <- (Accumulator.apply_calls_in_step calls s I). exact T.
  - intros env value s. reflexivity.
Qed.

(** An operation named "UNKNOWN" on a fresh page. *)
Lemma unrecognised_operation_is_listed_but_not_applied_witness :
  currentTotal
    (handleOperation (Scenario.env0 0%nat) (Member UNKNOWN) 7%float initial)
  = 0%float.
Proof.
  exact (proj1 (unrecognised_operation_is_listed_but_not_applied
                  (Scenario.env0 0%nat) (Member UNKNOWN) 7%float initial
                  eq_refl)).
Defined.

End Numbers.

(** ** Binary64 arithmetic

    What the playback schedule needs of IEEE 754 addition and comparison,
    from the specification of the primitive floats. *)

Module Binary64.

Local Open Scope Z_scope.

























Local Open Scope float_scope.











End Binary64.

(** ** The playback schedule *)

Module Scheduling.

Import LiveMath Playback.









(** The end-to-end scenario of the specification: fragments of 500 ms and
    300 ms are handled 50 ms apart on an idle scheduler; the first starts
    when it is handled, at 1, the second at 1.5, not at 1.05. *)
Example two_fragments_50ms_apart :
  playback 0
    [ {| currentTime := 1; duration := 12000 / 24000 |};
      {| currentTime := 21 / 20; duration := 7200 / 24000 |} ]
  = [ (1, 0.5); (1.5, 7200 / 24000) ]%float.
Proof. reflexivity. Qed.

End Scheduling.
